(** * lineageprofiler: plate addressing, timelines and lineage trees

    A shallow embedding of [src/lineageprofiler.py] and the properties of
    its plate addressing ([PlateDesign]), its event log ([Timeline]) and its
    lineage tree builder ([Timeline.get_lineage_tree]).

    Conventions of the embedding.
    - A plate format is a pair of counts (rows, columns), as the constants
      [P6] ... [P5600] of the source are; counts are [nat].  Row and column
      positions given by a caller are [Z]: the source tests them for
      negative values itself.
    - A Python [dict] is a [gmap], a Python [set] a [gset].  Where the
      source turns a set into a tuple or a list ([tuple(set(..))],
      [list(set(..))]) or iterates over it, the order Python uses is the
      hash order, which the language leaves open; the embedding uses
      [elements], and no statement below depends on that order.
    - A Python exception is a value of [exception]; a method that can raise
      returns a [result].
    - An [Event] object has an identity ([eid]): two events created by two
      calls are different objects even when all their fields agree. *)

From Stdlib Require Import ZArith String Ascii DecimalString DecimalNat.
From stdpp Require Import base list gmap sets strings sorting.

Local Open Scope string_scope.
Local Open Scope list_scope.
Local Open Scope nat_scope.

(** ** Exceptions *)

Inductive exception : Type :=
  | KeyError        (* [d[k]] on a missing key *)
  | IndexError      (* [l[i]] out of range *)
  | AssertionError  (* a failed [assert] *)
  | ValueError.     (* numpy: [reshape] to a shape of another size *)

Inductive result (A : Type) : Type :=
  | Ok (a : A)
  | Raise (e : exception).
Arguments Ok {A} a.
Arguments Raise {A} e.

(** Sequencing: an exception ends the computation.  With these instances
    [x ← m; k] is stdpp's notation for it. *)
#[global] Instance result_ret : MRet result := @Ok.
#[global] Instance result_bind : MBind result := λ A B k m,
  match m with
  | Ok a => k a
  | Raise e => Raise e
  end.

(** [assert c] *)
Definition assert (c : bool) : result unit :=
  if c then Ok tt else Raise AssertionError.

(** ** Module constants *)

Definition alphabet : string :=
  "ABCDEFGHIJKLMNOPQRSTUVWXYZabcdefghijklmnopqrstuvwxyz".

Definition plate_format : Type := (nat * nat)%type.

Definition P6 : plate_format := (2, 3).
Definition P96 : plate_format := (8, 12).
Definition P384 : plate_format := (16, 24).
Definition P1536 : plate_format := (32, 48).
Definition P5600 : plate_format := (40, 140).

Definition NO_EVENT : string := "no event".

(** ** String formatting *)

(** ['%d' % n] and ['%s' % n] for a non-negative integer. *)
Definition str_of_nat (n : nat) : string :=
  NilEmpty.string_of_uint (Nat.to_uint n).

(** Left padding with ['0'] up to [width] characters: the [0] flag of a
    conversion such as [%02d]. *)
Definition zero_pad (width : nat) (s : string) : string :=
  string_of_list_ascii (replicate (width - String.length s) "0"%char) +:+ s.

(** ['%02d' % n] *)
Definition fmt_02d (n : nat) : string := zero_pad 2 (str_of_nat n).

(** ['%s%02d' % (ch, num)] *)
Definition well_name (ch : ascii) (num : nat) : string :=
  String ch (fmt_02d num).

(** The inverse of ['%d'], used to show that the formatting loses nothing:
    leading zeros are read as such. *)
Definition nat_of_str (s : string) : option nat :=
  Nat.of_uint <$> NilEmpty.uint_of_string s.

(** ** numpy: [np.array(l).reshape(shape)] and [plate[row, col]] *)

Fixpoint rows_of {A} (nrows ncols : nat) (l : list A) : list (list A) :=
  match nrows with
  | O => []
  | S n => take ncols l :: rows_of n ncols (drop ncols l)
  end.

(** [reshape] keeps the row-major (C) order and refuses a shape whose size
    is not the number of elements. *)
Definition reshape {A} (l : list A) (shape : nat * nat) : result (list (list A)) :=
  if decide (length l = shape.1 * shape.2)
  then Ok (rows_of shape.1 shape.2 l)
  else Raise ValueError.

(** [plate[row, col]] for non-negative positions (numpy counts a negative
    position from the end; [get_well_id_from_row_col] asserts that away
    before it indexes). *)
Definition getitem2 {A} (plate : list (list A)) (row col : Z) : result A :=
  if decide (0 ≤ row ∧ 0 ≤ col)%Z then
    match plate !! Z.to_nat row ≫= (λ r, r !! Z.to_nat col) with
    | Some x => Ok x
    | None => Raise IndexError
    end
  else Raise IndexError.

(** ** PlateDesign *)

Module PlateDesign.

(** The class attribute [plates]: the one registry of the process, passed
    explicitly. *)
Abbreviation registry := (gmap string plate_format).

Definition plates_init : registry := ∅.

(** [self.plates[plate_id] = plate_format] *)
Definition add_plate (plates : registry) (plate_id : string) (fmt : plate_format)
  : registry :=
  <[plate_id := fmt]> plates.

(** [return self.plates[plate_id]] *)
Definition get_plate_format (plates : registry) (plate_id : string)
  : result plate_format :=
  match plates !! plate_id with
  | Some fmt => Ok fmt
  | None => Raise KeyError
  end.

(** [['%s%02d'%(ch, num) for ch in alphabet[:plate_format[0]]
                         for num in range(1,plate_format[1]+1)]] *)
Definition get_well_ids (fmt : plate_format) : list string :=
  ch ← take fmt.1 (list_ascii_of_string alphabet);
  num ← seq 1 fmt.2;
  [well_name ch num].

Definition get_well_id_from_row_col (fmt : plate_format) (pos : Z * Z)
  : result string :=
  let '(row, col) := pos in
  _ ← assert (bool_decide (0 ≤ row < Z.of_nat fmt.1)%Z);
  _ ← assert (bool_decide (0 ≤ col < Z.of_nat fmt.2)%Z);
  plate ← reshape (get_well_ids fmt) fmt;
  getitem2 plate row col.

End PlateDesign.

(** ** Event *)

Module Event.

(** [id] is the identity of the object; the other fields are the
    attributes [__init__] sets. *)
Record t : Type := new {
  id : nat;
  timepoint : Z;
  action : string;
  plate : string;
  wells : list string
}.

Definition get_timepoint (e : t) : Z := timepoint e.
Definition get_plate_id (e : t) : string := plate e.
Definition get_well_ids (e : t) : list string := wells e.
Definition get_action (e : t) : string := action e.

(** [__str__] *)
Definition str (e : t) : string := action e +:+ " event".

#[global] Instance eq_dec : EqDecision t.
Proof. solve_decision. Defined.

#[global] Instance countable : Countable t.
Proof.
  apply (inj_countable'
           (λ e, (id e, timepoint e, action e, plate e, wells e))
           (λ p, let '(i, tp, a, pl, ws) := p in new i tp a pl ws)).
  by intros [].
Defined.

End Event.

(** ** Python containers *)

(** [l.insert(i, x)] for [0 <= i]: [x] goes before position [i], or to the
    end when the list is shorter. *)
Definition list_insert_at {A} (i : nat) (x : A) (l : list A) : list A :=
  take i l ++ x :: drop i l.

(** [tuple(set(l))] and [list(set(l))] *)
Definition tuple_of_set `{Countable A} (l : list A) : list A :=
  elements (list_to_set l : gset A).

(** The two dictionaries of lists of the source are filled the same way:
    [if d.get(k, None) is None: d[k] = [v]  else: d[k] += [v]]. *)
Definition dict_add `{Countable K} {V} (d : gmap K (list V)) (k : K) (v : V)
  : gmap K (list V) :=
  match d !! k with
  | None => <[k := [v]]> d
  | Some l => <[k := l ++ [v]]> d
  end.

(** [set([tuple(set(d[k])) for k in d.keys()])] *)
Definition dict_groups `{Countable K} `{Countable V} (d : gmap K (list V))
  : gset (list V) :=
  list_to_set ((λ kv, tuple_of_set kv.2) <$> map_to_list d).

(** The order of [str] values: by character code, a proper prefix first. *)
Definition str_le (s1 s2 : string) : Prop := String.leb s1 s2 = true.

#[global] Instance str_le_dec : RelDecision str_le.
Proof. intros s1 s2. unfold str_le. apply _. Defined.

(** [sorted(..)] of a list of strings and of a list of timepoints *)
Definition sorted_str (l : list string) : list string := merge_sort str_le l.
Definition sorted_Z (l : list Z) : list Z := merge_sort Z.le l.

(** ** LineageNode *)

(** [parent] is a back reference in the source; the tree holds it as the
    id of the parent, and [children] is the list [add_child] fills.  The
    [print] of [__init__] is not part of the value. *)
#[warnings="-register-all"]
Inductive LineageNode : Type :=
  | Node (parent : option string) (id : string) (wells : list string)
         (timepoint : Z) (children : list LineageNode).

Module Node.
Definition get_parent (n : LineageNode) : option string :=
  let 'Node p _ _ _ _ := n in p.
Definition id (n : LineageNode) : string :=
  let 'Node _ i _ _ _ := n in i.
Definition get_well_ids (n : LineageNode) : list string :=
  let 'Node _ _ ws _ _ := n in ws.
Definition timepoint (n : LineageNode) : Z :=
  let 'Node _ _ _ tp _ := n in tp.
Definition get_children (n : LineageNode) : list LineageNode :=
  let 'Node _ _ _ _ cs := n in cs.

(** All nodes of a tree: the node itself and the nodes below it. *)
Fixpoint nodes (n : LineageNode) : list LineageNode :=
  let 'Node _ _ _ _ cs := n in
  n :: (fix all (l : list LineageNode) : list LineageNode :=
          match l with
          | [] => []
          | c :: l' => nodes c ++ all l'
          end) cs.
End Node.

(** ** Timeline *)

Module Timeline.

Record t : Type := mk {
  stock : string;
  events : list Event.t;   (* a chronologically ordered list of events *)
  plates : list string
}.

(** [__init__] *)
Definition new (stock : string) : t := mk stock [] [].

(** The identity of the next [Event] object: one no event of the
    timeline has. *)
Definition fresh_id (evs : list Event.t) : nat :=
  S (max_list (Event.id <$> evs)).

(** The [for] loop of [add_event], from position [i] downwards:
    [[
      for i in range(len(self.events)-1, -1, -1):
         if evt.get_timepoint() > self.events[i].get_timepoint() or i==0:
            self.events.insert(i+1,evt)
            break
    ]] *)
Fixpoint add_event_loop (evt : Event.t) (evs : list Event.t) (i : nat)
  : list Event.t :=
  match evs !! i with
  | Some e =>
      if bool_decide (Event.get_timepoint evt > Event.get_timepoint e)%Z
         || bool_decide (i = 0)
      then list_insert_at (i + 1) evt evs
      else match i with
           | O => evs
           | S i' => add_event_loop evt evs i'
           end
  | None => evs  (* not reached: the loop starts at [len - 1] *)
  end.

(** [add_event] returns the event and leaves the timeline changed. *)
Definition add_event (tl : t) (timepoint : Z) (action plate_id : string)
    (well_ids : list string) : t * Event.t :=
  let evt := Event.new (fresh_id (events tl)) timepoint action plate_id well_ids in
  let evs :=
    if bool_decide (length (events tl) = 0) then [evt]
    else add_event_loop evt (events tl) (length (events tl) - 1) in
  (mk (stock tl) evs (plates tl), evt).

Definition get_event_list (tl : t) : list Event.t := events tl.

(** [timepoint=None] takes every event. *)
Definition get_well_ids (tl : t) (timepoint : option Z) : list string :=
  tuple_of_set
    (evt ← get_event_list tl;
     if bool_decide (Some (Event.get_timepoint evt) = timepoint
                     ∨ timepoint = None)
     then Event.get_well_ids evt else []).

Definition get_unique_timepoints (tl : t) : list Z :=
  sorted_Z (tuple_of_set (Event.get_timepoint <$> events tl)).

Definition get_events_at_timepoint (tl : t) (timepoint : Z) : list Event.t :=
  filter (λ evn, Event.get_timepoint evn = timepoint) (events tl).

Definition get_events_in_well (tl : t) (well : string) (timepoint : Z)
  : list Event.t :=
  filter (λ evt, well ∈ Event.get_well_ids evt)
         (get_events_at_timepoint tl timepoint).

(** The dictionary [d] of [get_event_permutations] after the events
    [evs]: from a well to the events that took place in it.  The plate
    format of an event whose plate was never added is a [KeyError]. *)
Fixpoint event_dict (plates : PlateDesign.registry) (evs : list Event.t)
    (d : gmap string (list Event.t)) : result (gmap string (list Event.t)) :=
  match evs with
  | [] => Ok d
  | event :: evs' =>
      fmt ← PlateDesign.get_plate_format plates (Event.get_plate_id event);
      event_dict plates evs'
        (foldl (λ d well,
                  if bool_decide (well ∈ Event.get_well_ids event)
                  then dict_add d well event else d)
               d (PlateDesign.get_well_ids fmt))
  end.

Definition get_event_permutations (plates : PlateDesign.registry) (tl : t)
    (timepoint : Z) : result (gset (list Event.t)) :=
  d ← event_dict plates (get_events_at_timepoint tl timepoint) ∅;
  Ok (dict_groups d).

(** The dictionary [d] of [get_well_permutations]: from the events of a
    well to the wells that have them. *)
Definition well_dict (tl : t) (timepoint : Z) (wells : list string)
  : gmap (list Event.t) (list string) :=
  foldl (λ d well, dict_add d (get_events_in_well tl well timepoint) well)
        ∅ wells.

Definition get_well_permutations (tl : t) (timepoint : Z) (fmt : plate_format)
  : gset (list string) :=
  dict_groups (well_dict tl timepoint (PlateDesign.get_well_ids fmt)).

(** [attach_child_nodes], the first loop: the non-empty parts of the
    wells of the parent, one for each group of wells at [timepoint]. *)
Definition subwells (tl : t) (parent_wells : list string) (timepoint : Z)
  : list (list string) :=
  filter (λ wellset, 0 < length wellset)
    ((λ wells, sorted_str
                 (elements ((list_to_set parent_wells : gset string)
                              ∩ list_to_set wells)))
       <$> elements (get_well_permutations tl timepoint P6)).

(** [build_tree(parent, tp_idx)] with the children [attach_child_nodes]
    gives the parent.  [later] is the list of the unique timepoints after
    position [tp_idx], [get_unique_timepoints()[tp_idx+1:]]: when it is
    empty [attach_child_nodes] returns [None] and the node stays a leaf,
    otherwise its head is the timepoint of the children. *)
Fixpoint build_tree (tl : t) (later : list Z) (parent : option string)
    (id : string) (wells : list string) (timepoint : Z) : LineageNode :=
  Node parent id wells timepoint
    match later with
    | [] => []
    | tp :: later' =>
        imap (λ i wellset,
                build_tree tl later' (Some id) (id +:+ ":" +:+ str_of_nat i)
                           wellset tp)
             (subwells tl wells tp)
    end.

(** [self.get_unique_timepoints()[0]] is an [IndexError] when the
    timeline has no event. *)
Definition get_lineage_tree (tl : t) : result LineageNode :=
  let root_wells := get_well_ids tl None in
  match get_unique_timepoints tl with
  | [] => Raise IndexError
  | tp0 :: later => Ok (build_tree tl later None (stock tl) root_wells tp0)
  end.

End Timeline.

(** ** Timelines of the scenarios *)

(** [tl.add_event(tp, action, 'fred', wells)], for the timeline it leaves. *)
Definition add (tp : Z) (action : string) (wells : list string) (tl : Timeline.t)
  : Timeline.t :=
  (Timeline.add_event tl tp action "fred" wells).1.

(** All six wells of a 6-well plate seeded at timepoint 1; at timepoint 2
    "X" on four wells, "Y" on three, "no event" on the one left. *)
Definition scenario : Timeline.t :=
  add 2 NO_EVENT ["B01"]
    (add 2 "Y" ["A02"; "B02"; "B03"]
       (add 2 "X" ["A01"; "A02"; "A03"; "B03"]
          (add 1 "seed" (PlateDesign.get_well_ids P6) (Timeline.new "U2OS")))).

(** The actions of the events of a well at a timepoint. *)
Definition actions_in_well (tl : Timeline.t) (well : string) (tp : Z)
  : gset string :=
  list_to_set (Event.get_action <$> Timeline.get_events_in_well tl well tp).

(** [chronological l]: ascending timepoints along the list. *)
Definition chronological (evs : list Event.t) : Prop :=
  ∀ i j e1 e2, i < j → evs !! i = Some e1 → evs !! j = Some e2 →
    (Event.get_timepoint e1 ≤ Event.get_timepoint e2)%Z.

(** ** Histories *)

(** The registry after the calls [add_plate(p, g)] of [calls], first call
    first, on the empty registry of the class. *)
Definition registered (calls : list (string * plate_format))
  : PlateDesign.registry :=
  foldl (λ plates c, PlateDesign.add_plate plates c.1 c.2)
        PlateDesign.plates_init calls.

(** ** Events on the wells of their plate *)

(** [on_plate plates e w]: the plate of the event [e] was added, and [w] is
    one of the well ids of its format. *)
Definition on_plate (plates : gmap string plate_format) (e : Event.t)
    (w : string) : Prop :=
  match plates !! Event.get_plate_id e with
  | Some fmt => w ∈ PlateDesign.get_well_ids fmt
  | None => False
  end.

#[global] Instance on_plate_dec plates e w : Decision (on_plate plates e w).
Proof. unfold on_plate. destruct (plates !! _); apply _. Defined.

(** The events of a well at a timepoint that are on a plate with that
    well. *)
Definition placed_events (plates : gmap string plate_format) (tl : Timeline.t)
    (well : string) (tp : Z) : list Event.t :=
  filter (λ e, on_plate plates e well) (Timeline.get_events_in_well tl well tp).

(** The result of [get_event_permutations] in the words of its
    description: a group for each well that some event at the timepoint
    affects, made of the events at the timepoint that affect the well. *)
Definition groups_of_affected_wells (plates : gmap string plate_format)
    (tl : Timeline.t) (tp : Z) : Prop :=
  ∃ G, Timeline.get_event_permutations plates tl tp = Ok G
    ∧ ∀ g, g ∈ G ↔
        ∃ w, Timeline.get_events_in_well tl w tp ≠ []
           ∧ g = tuple_of_set (Timeline.get_events_in_well tl w tp).

(** The registry of the test code: the plate "fred", of 6 wells. *)
Definition fred_plates : gmap string plate_format := registered [("fred", P6)].

(** One event, on "fred", for a well that a plate of 6 wells does not
    have. *)
Definition off_plate : Timeline.t := add 1 "seed" ["C01"] (Timeline.new "U2OS").

(** ** Nodes and their children *)

(** What holds between a node and its children, the nodes it is the
    parent of: the wells of a child are wells of the node; two children
    have no well in common; when the node has children, their wells
    together are the wells of the node that are well ids of [P6], the one
    plate format [attach_child_nodes] gives [get_well_permutations]. *)
Definition node_inv (n : LineageNode) : Prop :=
  (∀ c, c ∈ Node.get_children n →
     Node.get_parent c = Some (Node.id n)
     ∧ Node.get_well_ids c ⊆ Node.get_well_ids n)
  ∧ (∀ i j c1 c2, i ≠ j →
       Node.get_children n !! i = Some c1 →
       Node.get_children n !! j = Some c2 →
       ∀ w, w ∈ Node.get_well_ids c1 → w ∉ Node.get_well_ids c2)
  ∧ (Node.get_children n ≠ [] →
       ∀ w, (∃ c, c ∈ Node.get_children n ∧ w ∈ Node.get_well_ids c)
            ↔ w ∈ Node.get_well_ids n ∧ w ∈ PlateDesign.get_well_ids P6).

(** ** The lineage tree in the words of its description *)

(** The wells defined at a timepoint: the wells of the formats of the
    plates of the events at the timepoint. *)
Definition wells_defined_at (plates : gmap string plate_format)
    (tl : Timeline.t) (tp : Z) : list string :=
  evt ← Timeline.get_events_at_timepoint tl tp;
  match plates !! Event.get_plate_id evt with
  | Some fmt => PlateDesign.get_well_ids fmt
  | None => []
  end.

(** The wells tracked at a timepoint: the wells of the events at the
    timepoint. *)
Definition wells_tracked_at (tl : Timeline.t) (tp : Z) : list string :=
  Timeline.get_well_ids tl (Some tp).

(** The property of the tree as it is described, for [D tp] the wells of
    the timeline at the timepoint [tp]: for each node, the wells of a child
    are wells of the node, two children have no well in common, and the
    wells of the children together are the wells of the node that are in
    [D] of the timepoint of the children. *)
Definition lineage_tree_covers (D : Z → list string) (tl : Timeline.t) : Prop :=
  ∀ tree, Timeline.get_lineage_tree tl = Ok tree →
  ∀ n, n ∈ Node.nodes tree →
    (∀ c, c ∈ Node.get_children n →
       Node.get_well_ids c ⊆ Node.get_well_ids n)
    ∧ (∀ i j c1 c2, i ≠ j →
         Node.get_children n !! i = Some c1 →
         Node.get_children n !! j = Some c2 →
         ∀ w, w ∈ Node.get_well_ids c1 → w ∉ Node.get_well_ids c2)
    ∧ (∀ c0, c0 ∈ Node.get_children n →
         ∀ w, (∃ c, c ∈ Node.get_children n ∧ w ∈ Node.get_well_ids c)
              ↔ w ∈ Node.get_well_ids n ∧ w ∈ D (Node.timepoint c0)).

(** A plate of 96 wells, "big"; the wells A01 and C01 seeded at timepoint
    1, C01 treated at timepoint 2. *)
Definition big_plates : gmap string plate_format := registered [("big", P96)].

Definition big_plate : Timeline.t :=
  (Timeline.add_event
     (Timeline.add_event (Timeline.new "U2OS") 1 "seed" "big" ["A01"; "C01"]).1
     2 "treat" "big" ["C01"]).1.

(** ** Leaves *)

(** The leaves of a tree: its nodes without children, from left to
    right. *)
Fixpoint leaves (n : LineageNode) : list LineageNode :=
  let 'Node _ _ _ _ cs := n in
  match cs with
  | [] => [n]
  | _ :: _ =>
      (fix all (l : list LineageNode) : list LineageNode :=
         match l with
         | [] => []
         | c :: l' => leaves c ++ all l'
         end) cs
  end.

(** ** Sequences of calls *)

(** The timeline after the calls [add_event(tp, action, plate_id, wells)]
    of [calls], first call first. *)
Definition add_events (tl : Timeline.t)
    (calls : list (Z * string * string * list string)) : Timeline.t :=
  foldl (λ tl c, (Timeline.add_event tl c.1.1.1 c.1.1.2 c.1.2 c.2).1) tl calls.

(** * Properties *)

Example get_well_ids_P6 :
  PlateDesign.get_well_ids P6 = ["A01"; "A02"; "A03"; "B01"; "B02"; "B03"].
Proof. reflexivity. Qed.

Example well_name_wide : well_name "n" 140 = "n140".
Proof. reflexivity. Qed.

Example get_well_id_from_row_col_P6 :
  PlateDesign.get_well_id_from_row_col P6 (1, 2)%Z = Ok "B03".
Proof. reflexivity. Qed.

(** ** Formatting *)

Section formatting.

Lemma length_string_of_list_ascii (l : list ascii) :
  String.length (string_of_list_ascii l) = length l.
Proof. induction l as [|a l IH]; [done|]. simpl. by rewrite IH. Qed.

Lemma length_str_app (s1 s2 : string) :
  String.length (s1 +:+ s2) = String.length s1 + String.length s2.
Proof. induction s1 as [|a s1 IH]; [done|]. simpl. by rewrite IH. Qed.

Lemma length_zero_pad (width : nat) (s : string) :
  String.length (zero_pad width s) = width `max` String.length s.
Proof.
  unfold zero_pad.
  rewrite length_str_app, length_string_of_list_ascii, length_replicate. lia.
Qed.

Lemma of_uint_D0 (d : Decimal.uint) : Nat.of_uint (Decimal.D0 d) = Nat.of_uint d.
Proof. reflexivity. Qed.

Lemma nat_of_str_zeros (k : nat) (s : string) :
  nat_of_str (string_of_list_ascii (replicate k "0"%char) +:+ s) = nat_of_str s.
Proof.
  unfold nat_of_str. induction k as [|k IH]; [done|].
  rewrite <- IH. simpl.
  by destruct (NilEmpty.uint_of_string _) as [d|].
Qed.

Lemma nat_of_str_of_nat (n : nat) : nat_of_str (str_of_nat n) = Some n.
Proof.
  unfold nat_of_str, str_of_nat. rewrite NilEmpty.usu. simpl.
  by rewrite DecimalNat.Unsigned.of_to.
Qed.

Lemma nat_of_fmt_02d (n : nat) : nat_of_str (fmt_02d n) = Some n.
Proof. unfold fmt_02d, zero_pad. by rewrite nat_of_str_zeros, nat_of_str_of_nat. Qed.

Lemma well_name_inj (ch1 ch2 : ascii) (n1 n2 : nat) :
  well_name ch1 n1 = well_name ch2 n2 → ch1 = ch2 ∧ n1 = n2.
Proof.
  unfold well_name. intros [= -> Hn]. split; [done|].
  apply (f_equal nat_of_str) in Hn. rewrite !nat_of_fmt_02d in Hn. congruence.
Qed.

End formatting.

(** ** Row-major lists *)

Section row_major.
Context {A B : Type}.

Lemma bind_ret_fmap (g : A → B) (l : list A) : (x ← l; [g x]) = g <$> l.
Proof. induction l as [|x l IH]; [done|]. csimpl. by rewrite IH. Qed.

Section uniform.
Variables (f : A → list B) (n : nat).
Hypothesis f_length : ∀ x, length (f x) = n.

Lemma length_bind_uniform (l : list A) : length (l ≫= f) = length l * n.
Proof.
  induction l as [|x l IH]; [done|].
  rewrite bind_cons, length_app, IH, f_length. simpl. lia.
Qed.

Lemma lookup_bind_uniform (l : list A) (i j : nat) :
  j < n → (l ≫= f) !! (i * n + j) = l !! i ≫= λ x, f x !! j.
Proof.
  intros Hj. revert i. induction l as [|x l IH]; intros i; [done|].
  rewrite bind_cons. destruct i as [|i].
  - rewrite lookup_app_l by (rewrite f_length; lia). done.
  - rewrite lookup_app_r by (rewrite f_length; lia).
    rewrite f_length. replace (S i * n + j - n) with (i * n + j) by lia.
    apply IH.
Qed.
End uniform.

Lemma rows_of_lookup (nrows ncols : nat) (l : list A) (r : nat) :
  r < nrows → rows_of nrows ncols l !! r = Some (take ncols (drop (r * ncols) l)).
Proof.
  revert l r. induction nrows as [|nrows IH]; intros l r Hr; [lia|].
  destruct r as [|r]; [done|]. simpl rows_of.
  rewrite lookup_cons. rewrite IH by lia. rewrite drop_drop.
  by replace (ncols + r * ncols) with (S r * ncols) by lia.
Qed.

Lemma rows_of_lookup2 (nrows ncols : nat) (l : list A) (r c : nat) :
  r < nrows → c < ncols →
  rows_of nrows ncols l !! r ≫= (λ row, row !! c) = l !! (r * ncols + c).
Proof.
  intros Hr Hc. rewrite rows_of_lookup by done. simpl.
  by rewrite lookup_take_lt, lookup_drop.
Qed.

End row_major.

(** ** Plate addressing *)

Section plate_addressing.
Implicit Types (fmt : plate_format) (rowCount colCount row col : nat).

Lemma alphabet_length : length (list_ascii_of_string alphabet) = 52.
Proof. reflexivity. Qed.

Lemma alphabet_NoDup : NoDup (list_ascii_of_string alphabet).
Proof. apply (bool_decide_unpack _). by vm_compute. Qed.

Lemma get_well_ids_row ch colCount :
  (num ← seq 1 colCount; [well_name ch num]) = well_name ch <$> seq 1 colCount.
Proof. apply bind_ret_fmap. Qed.

Lemma get_well_ids_length fmt :
  length (PlateDesign.get_well_ids fmt) = (fmt.1 `min` 52) * fmt.2.
Proof.
  unfold PlateDesign.get_well_ids.
  rewrite (length_bind_uniform _ fmt.2).
  - by rewrite length_take, alphabet_length.
  - intros ch. by rewrite get_well_ids_row, length_fmap, length_seq.
Qed.

Lemma get_well_ids_NoDup fmt : NoDup (PlateDesign.get_well_ids fmt).
Proof.
  unfold PlateDesign.get_well_ids. apply NoDup_bind.
  - intros ch1 ch2 w _ _. rewrite !get_well_ids_row, !list_elem_of_fmap.
    intros (n1 & -> & _) (n2 & Heq & _). by apply well_name_inj in Heq as [].
  - intros ch _. rewrite get_well_ids_row. apply NoDup_fmap_2_strong.
    + intros n1 n2 _ _ Heq. by apply well_name_inj in Heq as [].
    + apply NoDup_seq.
  - eapply sublist_NoDup; [apply alphabet_NoDup | apply sublist_take].
Qed.

Lemma get_well_ids_lookup rowCount colCount row col :
  row < rowCount → col < colCount →
  PlateDesign.get_well_ids (rowCount, colCount) !! (row * colCount + col)
  = (λ ch, well_name ch (col + 1)) <$> list_ascii_of_string alphabet !! row.
Proof.
  intros Hr Hc. unfold PlateDesign.get_well_ids.
  rewrite (lookup_bind_uniform _ colCount); [| |done].
  - cbn [fst snd]. rewrite lookup_take_lt by done.
    destruct (list_ascii_of_string alphabet !! row) as [ch|]; [|done].
    cbn [mbind option_bind fmap option_fmap option_map].
    rewrite get_well_ids_row, list_lookup_fmap, lookup_seq_lt by done.
    cbn [fmap option_fmap option_map]. do 2 f_equal. lia.
  - intros ch. by rewrite get_well_ids_row, length_fmap, length_seq.
Qed.

Lemma elem_of_get_well_ids fmt w :
  w ∈ PlateDesign.get_well_ids fmt ↔
  ∃ row col ch, row < fmt.1 ∧ col < fmt.2 ∧
    list_ascii_of_string alphabet !! row = Some ch ∧ w = well_name ch (col + 1).
Proof.
  unfold PlateDesign.get_well_ids. rewrite list_elem_of_bind. split.
  - intros (ch & Hw & Hch). rewrite get_well_ids_row in Hw.
    apply list_elem_of_fmap in Hw as (num & -> & Hnum).
    apply elem_of_seq in Hnum. apply list_elem_of_lookup in Hch as [row Hrow].
    apply lookup_take_Some in Hrow as [Hrow ?].
    exists row, (num - 1), ch. split_and!; [done|lia|done|]. f_equal. lia.
  - intros (row & col & ch & Hr & Hc & Hch & ->). exists ch. split.
    + rewrite get_well_ids_row. apply list_elem_of_fmap. exists (col + 1).
      split; [done|]. apply elem_of_seq. lia.
    + apply list_elem_of_lookup. exists row. by rewrite lookup_take_lt.
Qed.

End plate_addressing.

(** ** The plate registry *)

Lemma registered_snoc calls plate_id fmt :
  registered (calls ++ [(plate_id, fmt)])
  = PlateDesign.add_plate (registered calls) plate_id fmt.
Proof. unfold registered. by rewrite foldl_app. Qed.

Lemma registered_lookup calls plate_id :
  registered calls !! plate_id
  = snd <$> last (filter (λ c, c.1 = plate_id) calls).
Proof.
  induction calls as [|[p g] calls IH] using rev_ind; [done|].
  rewrite registered_snoc, filter_app. unfold PlateDesign.add_plate.
  rewrite lookup_insert. rewrite filter_cons, filter_nil. simpl.
  repeat case_decide; simplify_eq.
  - by rewrite last_snoc.
  - by rewrite app_nil_r.
Qed.

(** C9. Looking up a plate id that was never added is a [KeyError]; a
    plate id that was added has the format of its latest [add_plate],
    whatever it had before. *)
Theorem get_plate_format_latest (plates : gmap string plate_format)
    (plate_id : string) :
  (plates !! plate_id = None →
     PlateDesign.get_plate_format plates plate_id = Raise KeyError)
  ∧ (∀ g, PlateDesign.get_plate_format
            (PlateDesign.add_plate plates plate_id g) plate_id = Ok g)
  ∧ (∀ g g', PlateDesign.get_plate_format
               (PlateDesign.add_plate
                  (PlateDesign.add_plate plates plate_id g') plate_id g)
               plate_id = Ok g)
  ∧ (∀ calls, PlateDesign.get_plate_format (registered calls) plate_id
       = match last (filter (λ c, c.1 = plate_id) calls) with
         | Some c => Ok c.2
         | None => Raise KeyError
         end).
Proof.
  unfold PlateDesign.get_plate_format, PlateDesign.add_plate. split_and!.
  - by intros ->.
  - intros g. by rewrite lookup_insert_eq.
  - intros g g'. by rewrite lookup_insert_eq.
  - intros calls. rewrite registered_lookup.
    by destruct (last _) as [[p g]|].
Qed.

(** C8. The well ids of a plate of at most 52 rows: one per position, all
    different, row after row; the id at ([row], [col]) is the letter of the
    row and then the column number from 1, in decimal, of two characters
    or more, from which the number is read back.  The function reads no
    state: the same format gives the same list. *)
Theorem get_well_ids_row_major (rowCount colCount : nat) :
  rowCount ≤ 52 →
  length (PlateDesign.get_well_ids (rowCount, colCount)) = rowCount * colCount
  ∧ NoDup (PlateDesign.get_well_ids (rowCount, colCount))
  ∧ (∀ row col, row < rowCount → col < colCount →
       ∃ ch, list_ascii_of_string alphabet !! row = Some ch
         ∧ PlateDesign.get_well_ids (rowCount, colCount) !! (row * colCount + col)
           = Some (String ch (fmt_02d (col + 1))))
  ∧ (∀ num, 2 ≤ String.length (fmt_02d num)
         ∧ nat_of_str (fmt_02d num) = Some num)
  ∧ (∀ fmt, fmt = (rowCount, colCount) →
       PlateDesign.get_well_ids fmt
       = PlateDesign.get_well_ids (rowCount, colCount)).
Proof.
  intros Hrows. split_and!.
  - rewrite get_well_ids_length. simpl. f_equal. lia.
  - apply get_well_ids_NoDup.
  - intros row col Hr Hc. rewrite get_well_ids_lookup by done.
    destruct (lookup_lt_is_Some_2 (list_ascii_of_string alphabet) row)
      as [ch Hch]; [rewrite alphabet_length; lia|].
    exists ch. by rewrite Hch.
  - intros num. split; [|apply nat_of_fmt_02d].
    unfold fmt_02d. rewrite length_zero_pad. lia.
  - by intros fmt ->.
Qed.

Lemma get_well_ids_row_major_witness :
  2 ≤ 52
  ∧ length (PlateDesign.get_well_ids (2, 3)) = 2 * 3
  ∧ NoDup (PlateDesign.get_well_ids (2, 3)).
Proof.
  split; [lia|].
  destruct (get_well_ids_row_major 2 3) as (Hlen & Hnodup & _); [lia|].
  by split.
Defined.

(** C6. On a plate of at most 52 rows, a position inside the plate gives
    the well id at [row*colCount + col] of [get_well_ids]; a position
    outside fails its assertion. *)
Theorem get_well_id_from_row_col_spec (rowCount colCount : nat) (row col : Z) :
  rowCount ≤ 52 →
  ((0 ≤ row < Z.of_nat rowCount)%Z ∧ (0 ≤ col < Z.of_nat colCount)%Z →
     ∃ w, PlateDesign.get_well_ids (rowCount, colCount)
            !! Z.to_nat (row * Z.of_nat colCount + col) = Some w
        ∧ PlateDesign.get_well_id_from_row_col (rowCount, colCount) (row, col)
          = Ok w)
  ∧ (¬ ((0 ≤ row < Z.of_nat rowCount)%Z ∧ (0 ≤ col < Z.of_nat colCount)%Z) →
     PlateDesign.get_well_id_from_row_col (rowCount, colCount) (row, col)
     = Raise AssertionError).
Proof.
  intros Hrows. unfold PlateDesign.get_well_id_from_row_col. cbn [fst snd].
  split.
  - intros [Hr Hc]. rewrite !bool_decide_eq_true_2 by done.
    cbn [assert mbind result_bind]. unfold reshape.
    pose proof (get_well_ids_length (rowCount, colCount)) as Hlen.
    cbn [fst snd] in *. replace (rowCount `min` 52) with rowCount in Hlen by lia.
    case_decide; [|done]. cbn [mbind result_bind].
    unfold getitem2. case_decide; [|lia].
    rewrite rows_of_lookup2 by lia.
    replace (Z.to_nat (row * Z.of_nat colCount + col))
      with (Z.to_nat row * colCount + Z.to_nat col) by nia.
    destruct (lookup_lt_is_Some_2 (PlateDesign.get_well_ids (rowCount, colCount))
                (Z.to_nat row * colCount + Z.to_nat col)) as [w Hw].
    { rewrite Hlen. nia. }
    exists w. by rewrite Hw.
  - intros Hout.
    destruct (decide (0 ≤ row < Z.of_nat rowCount)%Z) as [Hr|Hr].
    + rewrite (bool_decide_eq_true_2 _ Hr).
      rewrite bool_decide_eq_false_2 by tauto. done.
    + by rewrite (bool_decide_eq_false_2 _ Hr).
Qed.

Lemma get_well_id_from_row_col_spec_witness :
  2 ≤ 52
  ∧ PlateDesign.get_well_id_from_row_col (2, 3) (1, 2)%Z = Ok "B03"
  ∧ PlateDesign.get_well_id_from_row_col (2, 3) (2, 0)%Z = Raise AssertionError.
Proof.
  split; [lia|]. split.
  - destruct (get_well_id_from_row_col_spec 2 3 1 2) as [Hin _]; [lia|].
    destruct Hin as (w & Hw & Hres); [lia|].
    injection Hw as <-. exact Hres.
  - apply (get_well_id_from_row_col_spec 2 3 2 0); lia.
Defined.

(** ** Dictionaries of lists *)

Section dict.
Context `{Countable K} `{Countable V}.

Lemma elem_of_tuple_of_set (l : list V) (x : V) : x ∈ tuple_of_set l ↔ x ∈ l.
Proof. unfold tuple_of_set. by rewrite elem_of_elements, elem_of_list_to_set. Qed.

Lemma NoDup_tuple_of_set (l : list V) : NoDup (tuple_of_set l).
Proof. unfold tuple_of_set. apply (NoDup_elements (C:=gset V)). Qed.

Lemma tuple_of_set_nil (l : list V) : tuple_of_set l = [] ↔ l = [].
Proof.
  split; [|intros ->; apply (elements_empty (C:=gset V))].
  destruct l as [|x l]; [done|]. intros Hnil.
  assert (x ∈ tuple_of_set (x :: l)) as Hx
    by (apply elem_of_tuple_of_set; left).
  rewrite Hnil in Hx. by apply elem_of_nil in Hx.
Qed.

(** Two tuples made of sets are the same tuple exactly when the sets
    are. *)
Lemma tuple_of_set_eq (l1 l2 : list V) :
  tuple_of_set l1 = tuple_of_set l2 ↔ ∀ x, x ∈ l1 ↔ x ∈ l2.
Proof.
  split.
  - intros Heq x.
    by rewrite <- (elem_of_tuple_of_set l1), <- (elem_of_tuple_of_set l2), Heq.
  - intros Hl. unfold tuple_of_set. f_equal. apply set_eq. intros x.
    by rewrite !elem_of_list_to_set.
Qed.

Lemma dict_add_lookup {W} (d : gmap K (list W)) (k k' : K) (v : W) :
  dict_add d k v !! k'
  = if decide (k = k') then Some (default [] (d !! k) ++ [v]) else d !! k'.
Proof.
  unfold dict_add. destruct (d !! k) as [l|] eqn:Hk;
    rewrite lookup_insert; by case_decide.
Qed.

(** The dictionary after a loop that files each [w] under [key w]. *)
Lemma foldl_dict_add_lookup {W} (key : W → K) (ws : list W)
    (d : gmap K (list W)) (k : K) :
  foldl (λ d w, dict_add d (key w) w) d ws !! k
  = match filter (λ w, key w = k) ws with
    | [] => d !! k
    | l => Some (default [] (d !! k) ++ l)
    end.
Proof.
  revert d. induction ws as [|w ws IH]; intros d; [done|].
  cbn [foldl]. rewrite IH, dict_add_lookup, filter_cons.
  case_decide as Hk.
  - subst k. simpl.
    destruct (filter _ ws) as [|w' l]; [done|]. by rewrite <- (assoc_L (++)).
  - done.
Qed.

Lemma elem_of_dict_groups (d : gmap K (list V)) (g : list V) :
  g ∈ dict_groups d ↔ ∃ k l, d !! k = Some l ∧ g = tuple_of_set l.
Proof.
  unfold dict_groups. rewrite elem_of_list_to_set, list_elem_of_fmap. split.
  - intros ([k l] & -> & Hkl). apply elem_of_map_to_list in Hkl. by exists k, l.
  - intros (k & l & Hkl & ->). exists (k, l). split; [done|].
    by apply elem_of_map_to_list.
Qed.

End dict.

(** ** Insertion into the event log *)

Section add_event.

Lemma list_insert_at_lookup {A} (k : nat) (x : A) (l : list A) (p : nat) :
  k ≤ length l →
  list_insert_at k x l !! p
  = if decide (p < k) then l !! p
    else if decide (p = k) then Some x else l !! (p - 1).
Proof.
  intros Hk. unfold list_insert_at.
  assert (length (take k l) = k) as Hlen by (rewrite length_take; lia).
  repeat case_decide.
  - rewrite lookup_app_l by lia. by apply lookup_take_lt.
  - subst p. rewrite lookup_app_r by lia. by rewrite Hlen, Nat.sub_diag.
  - rewrite lookup_app_r by lia. rewrite Hlen.
    replace (p - k) with (S (p - k - 1)) by lia.
    rewrite lookup_cons, lookup_drop. f_equal. lia.
Qed.

Lemma chronological_insert_at (k : nat) (evt : Event.t) (evs : list Event.t) :
  k ≤ length evs →
  chronological evs →
  (∀ p e, p < k → evs !! p = Some e →
     (Event.get_timepoint e ≤ Event.get_timepoint evt)%Z) →
  (∀ p e, k ≤ p → evs !! p = Some e →
     (Event.get_timepoint evt ≤ Event.get_timepoint e)%Z) →
  chronological (list_insert_at k evt evs).
Proof.
  intros Hk Hchron Hbefore Hafter i j e1 e2 Hij.
  rewrite !list_insert_at_lookup by done.
  repeat case_decide; intros Hl1 Hl2; simplify_eq; try lia;
    first [ by apply (Hchron i j)
          | by apply (Hbefore i)
          | apply (Hchron i (j - 1)); [lia|done..]
          | apply (Hafter (j - 1)); [lia|done]
          | apply (Hchron (i - 1) (j - 1)); [lia|done..] ].
Qed.

Variables (evt : Event.t) (evs : list Event.t).
Hypothesis evs_chronological : chronological evs.

(** The loop keeps the order when the first event is not later than the
    new one. *)
Lemma add_event_loop_chronological (i : nat) :
  i < length evs →
  (∀ p e, i < p → evs !! p = Some e →
     (Event.get_timepoint evt ≤ Event.get_timepoint e)%Z) →
  (∀ e0, evs !! 0 = Some e0 →
     (Event.get_timepoint e0 ≤ Event.get_timepoint evt)%Z) →
  chronological (Timeline.add_event_loop evt evs i).
Proof.
  intros Hi Hlater Hfirst. induction i as [|i IH].
  - cbn [Timeline.add_event_loop].
    destruct (evs !! 0) as [e|] eqn:He; [|exact evs_chronological].
    rewrite (bool_decide_eq_true_2 (0 = 0)), orb_true_r by done.
    apply chronological_insert_at; [simpl; lia|done|..].
    + intros p e' Hp He'. assert (p = 0) as -> by lia.
      apply Hfirst. congruence.
    + intros p e' Hp. apply Hlater. simpl in Hp. lia.
  - cbn [Timeline.add_event_loop].
    destruct (evs !! S i) as [e|] eqn:He; [|exact evs_chronological].
    rewrite (bool_decide_eq_false_2 (S i = 0)), orb_false_r by done.
    case_bool_decide as Hgt.
    + apply chronological_insert_at; [lia|done|..].
      * intros p e' Hp He'.
        destruct (decide (p = S i)) as [->|Hne]; [simplify_eq; lia|].
        assert (Event.get_timepoint e' ≤ Event.get_timepoint e)%Z
          by (apply (evs_chronological p (S i)); [lia|done..]).
        lia.
      * intros p e' Hp. apply Hlater. lia.
    + apply IH; [lia|]. intros p e' Hp He'.
      destruct (decide (p = S i)) as [->|Hne]; [simplify_eq; lia|].
      apply (Hlater p); [lia|done].
Qed.

(** The loop puts an event that is earlier than all the others after the
    first of them. *)
Lemma add_event_loop_early (i : nat) :
  i < length evs →
  (∀ p e, p ≤ i → evs !! p = Some e →
     (Event.get_timepoint evt < Event.get_timepoint e)%Z) →
  Timeline.add_event_loop evt evs i = list_insert_at 1 evt evs.
Proof.
  intros Hi Hearly. induction i as [|i IH].
  - cbn [Timeline.add_event_loop].
    destruct (evs !! 0) as [e|] eqn:He; [|by apply lookup_ge_None in He; lia].
    by rewrite (bool_decide_eq_true_2 (0 = 0)), orb_true_r by done.
  - cbn [Timeline.add_event_loop].
    destruct (evs !! S i) as [e|] eqn:He; [|by apply lookup_ge_None in He; lia].
    rewrite (bool_decide_eq_false_2 (S i = 0)), orb_false_r by done.
    rewrite bool_decide_eq_false_2.
    + apply IH; [lia|]. intros p e' Hp. apply Hearly. lia.
    + specialize (Hearly (S i) e ltac:(lia) He). lia.
Qed.

End add_event.

(** [add_event] keeps a chronological list chronological when the new
    timepoint is not below the timepoint of the first event. *)
Lemma add_event_chronological (tl : Timeline.t) (tp : Z) (action plate_id : string)
    (well_ids : list string) :
  chronological (Timeline.events tl) →
  (∀ e0, Timeline.events tl !! 0 = Some e0 → (Event.get_timepoint e0 ≤ tp)%Z) →
  chronological
    (Timeline.get_event_list (Timeline.add_event tl tp action plate_id well_ids).1).
Proof.
  intros Hchron Hfirst. unfold Timeline.add_event, Timeline.get_event_list.
  cbn [fst Timeline.events]. case_bool_decide as Hlen.
  - intros i j e1 e2 Hij Hi Hj. destruct j as [|j]; [lia|]. done.
  - apply add_event_loop_chronological; [done|lia| |done].
    intros p e Hp He. apply lookup_lt_Some in He. lia.
Qed.

(** It breaks the order when the new timepoint is below it: the new event
    is then the second of the list. *)
Lemma add_event_early (tl : Timeline.t) (tp : Z) (action plate_id : string)
    (well_ids : list string) (e0 : Event.t) :
  chronological (Timeline.events tl) →
  Timeline.events tl !! 0 = Some e0 →
  (tp < Event.get_timepoint e0)%Z →
  let evs := Timeline.get_event_list
               (Timeline.add_event tl tp action plate_id well_ids).1 in
  evs !! 0 = Some e0
  ∧ Event.get_timepoint <$> evs !! 1 = Some tp
  ∧ ¬ chronological evs.
Proof.
  intros Hchron He0 Htp.
  assert (0 < length (Timeline.events tl)) as Hlen
    by by apply lookup_lt_Some in He0.
  unfold Timeline.add_event, Timeline.get_event_list. cbn [fst Timeline.events].
  rewrite bool_decide_eq_false_2 by lia.
  rewrite add_event_loop_early; [|lia|].
  - rewrite !list_insert_at_lookup by lia. cbn.
    split_and!; [done..|]. intros Hbad.
    pose proof (Hbad 0 1 e0 (Event.new (Timeline.fresh_id (Timeline.events tl))
                                       tp action plate_id well_ids)
                     ltac:(lia)) as Hb.
    rewrite !list_insert_at_lookup in Hb by lia. cbn in Hb.
    specialize (Hb He0 eq_refl). lia.
  - intros p e Hp He. cbn.
    destruct p as [|p]; [by simplify_eq|].
    assert (Event.get_timepoint e0 ≤ Event.get_timepoint e)%Z
      by (apply (Hchron 0 (S p)); [lia|done..]).
    lia.
Qed.

(** ** The event log *)

(** C1. Adding an event at timepoint 3 and then one at timepoint 1 leaves
    the event list with timepoints 3, 1: the second event goes after the
    first one, not before it, and the list is not in ascending order. *)
Theorem add_event_3_then_1 :
  let tl1 := (Timeline.add_event (Timeline.new "U2OS") 3 "late" "fred" []).1 in
  let tl2 := (Timeline.add_event tl1 1 "early" "fred" []).1 in
  Event.get_timepoint <$> Timeline.get_event_list tl2 = [3; 1]%Z
  ∧ ¬ chronological (Timeline.get_event_list tl2).
Proof.
  split; [reflexivity|].
  intros Hsorted.
  specialize (Hsorted 0 1 _ _ ltac:(lia) eq_refl eq_refl).
  vm_compute in Hsorted. by apply Hsorted.
Qed.

(** C4. A timeline without events has no unique timepoint, and its lineage
    tree is not built: taking the first unique timepoint fails.  Both are
    queries: neither has a timeline to give back. *)
Theorem empty_timeline_no_tree (tl : Timeline.t) :
  Timeline.events tl = [] →
  Timeline.get_unique_timepoints tl = []
  ∧ Timeline.get_lineage_tree tl = Raise IndexError.
Proof.
  intros Hev.
  assert (Timeline.get_unique_timepoints tl = []) as Htps.
  { unfold Timeline.get_unique_timepoints. by rewrite Hev. }
  split; [done|]. unfold Timeline.get_lineage_tree. by rewrite Htps.
Qed.

Lemma empty_timeline_no_tree_witness :
  Timeline.events (Timeline.new "U2OS") = []
  ∧ Timeline.get_unique_timepoints (Timeline.new "U2OS") = []
  ∧ Timeline.get_lineage_tree (Timeline.new "U2OS") = Raise IndexError.
Proof.
  split; [reflexivity|].
  apply (empty_timeline_no_tree (Timeline.new "U2OS")). reflexivity.
Defined.

(** C5. The scenario on the 6-well plate: at timepoint 2 the wells fall
    into four groups, {A01,A03} with X only, {A02,B03} with X and Y, {B02}
    with Y only and {B01} with "no event".  Each group is given with its
    wells in ascending order. *)
Theorem scenario_well_permutations :
  set_map sorted_str (Timeline.get_well_permutations scenario 2 P6)
  = ({[ ["A01"; "A03"]; ["A02"; "B03"]; ["B02"]; ["B01"] ]}
       : gset (list string))
  ∧ size (Timeline.get_well_permutations scenario 2 P6) = 4
  ∧ actions_in_well scenario "A01" 2 = {[ "X" ]}
  ∧ actions_in_well scenario "A03" 2 = {[ "X" ]}
  ∧ actions_in_well scenario "A02" 2 = {[ "X"; "Y" ]}
  ∧ actions_in_well scenario "B03" 2 = {[ "X"; "Y" ]}
  ∧ actions_in_well scenario "B02" 2 = {[ "Y" ]}
  ∧ actions_in_well scenario "B01" 2 = {[ NO_EVENT ]}.
Proof. split_and!; compute_done. Qed.

(** ** Groups of wells *)

Section well_permutations.
Variables (tl : Timeline.t) (tp : Z).

Lemma well_dict_lookup (ws : list string) (k : list Event.t) :
  Timeline.well_dict tl tp ws !! k
  = match filter (λ w, Timeline.get_events_in_well tl w tp = k) ws with
    | [] => None
    | l => Some l
    end.
Proof.
  unfold Timeline.well_dict.
  rewrite (foldl_dict_add_lookup (λ w, Timeline.get_events_in_well tl w tp)).
  by rewrite lookup_empty.
Qed.

(** A group is the tuple of the wells that have the events of one well. *)
Lemma elem_of_get_well_permutations (fmt : plate_format) (g : list string) :
  g ∈ Timeline.get_well_permutations tl tp fmt ↔
  ∃ w0, w0 ∈ PlateDesign.get_well_ids fmt
    ∧ g = tuple_of_set
            (filter (λ w, Timeline.get_events_in_well tl w tp
                          = Timeline.get_events_in_well tl w0 tp)
                    (PlateDesign.get_well_ids fmt)).
Proof.
  unfold Timeline.get_well_permutations. rewrite elem_of_dict_groups. split.
  - intros (k & l & Hk & ->). rewrite well_dict_lookup in Hk.
    destruct (filter _ _) as [|w0 l'] eqn:Hf; simplify_eq.
    assert (w0 ∈ filter (λ w, Timeline.get_events_in_well tl w tp = k)
                    (PlateDesign.get_well_ids fmt)) as Hw0
      by (rewrite Hf; left).
    apply list_elem_of_filter in Hw0 as [<- Hw0]. exists w0. by rewrite Hf.
  - intros (w0 & Hw0 & ->).
    exists (Timeline.get_events_in_well tl w0 tp), 
      (filter (λ w, Timeline.get_events_in_well tl w tp
                    = Timeline.get_events_in_well tl w0 tp)
              (PlateDesign.get_well_ids fmt)).
    split; [|done]. rewrite well_dict_lookup.
    destruct (filter _ _) as [|w1 l'] eqn:Hf; [|done].
    by apply (filter_nil_not_elem_of _ _ w0) in Hf.
Qed.

Lemma elem_of_well_group (fmt : plate_format) (g : list string) (w : string) :
  g ∈ Timeline.get_well_permutations tl tp fmt → w ∈ g →
  w ∈ PlateDesign.get_well_ids fmt
  ∧ g = tuple_of_set
          (filter (λ w', Timeline.get_events_in_well tl w' tp
                         = Timeline.get_events_in_well tl w tp)
                  (PlateDesign.get_well_ids fmt)).
Proof.
  intros (w0 & Hw0 & ->)%elem_of_get_well_permutations
         (Hsig & Hw)%elem_of_tuple_of_set%list_elem_of_filter.
  split; [done|]. by rewrite Hsig.
Qed.

Lemma well_group_of (fmt : plate_format) (w : string) :
  w ∈ PlateDesign.get_well_ids fmt →
  ∃ g, g ∈ Timeline.get_well_permutations tl tp fmt ∧ w ∈ g.
Proof.
  intros Hw. eexists. split.
  - apply elem_of_get_well_permutations. by exists w.
  - apply elem_of_tuple_of_set, list_elem_of_filter. by split.
Qed.

Lemma well_groups_disjoint (fmt : plate_format) (g1 g2 : list string) (w : string) :
  g1 ∈ Timeline.get_well_permutations tl tp fmt →
  g2 ∈ Timeline.get_well_permutations tl tp fmt →
  w ∈ g1 → w ∈ g2 → g1 = g2.
Proof.
  intros Hg1 Hg2 Hw1 Hw2.
  destruct (elem_of_well_group _ _ _ Hg1 Hw1) as [_ ->].
  by destruct (elem_of_well_group _ _ _ Hg2 Hw2) as [_ ->].
Qed.

End well_permutations.

(** C2. The groups of [get_well_permutations] are a partition of the wells
    of the plate: each well of the plate is in one group and in no other,
    two groups that share a well are the same group, the wells of the
    groups are the wells of the plate, and two wells of the plate are in
    one group exactly when [get_events_in_well] gives the same events for
    both (none, for the wells without events).  This holds for every plate
    format, those of at most 52 rows among them. *)
Theorem get_well_permutations_partition (tl : Timeline.t) (tp : Z)
    (fmt : plate_format) :
  (∀ w, w ∈ PlateDesign.get_well_ids fmt →
     ∃ g, g ∈ Timeline.get_well_permutations tl tp fmt ∧ w ∈ g
        ∧ ∀ g', g' ∈ Timeline.get_well_permutations tl tp fmt → w ∈ g' → g' = g)
  ∧ (∀ g1 g2, g1 ∈ Timeline.get_well_permutations tl tp fmt →
       g2 ∈ Timeline.get_well_permutations tl tp fmt →
       g1 ≠ g2 → ∀ w, w ∈ g1 → w ∉ g2)
  ∧ (∀ w, (∃ g, g ∈ Timeline.get_well_permutations tl tp fmt ∧ w ∈ g)
          ↔ w ∈ PlateDesign.get_well_ids fmt)
  ∧ (∀ w1 w2, w1 ∈ PlateDesign.get_well_ids fmt →
       w2 ∈ PlateDesign.get_well_ids fmt →
       (∃ g, g ∈ Timeline.get_well_permutations tl tp fmt ∧ w1 ∈ g ∧ w2 ∈ g)
       ↔ Timeline.get_events_in_well tl w1 tp
         = Timeline.get_events_in_well tl w2 tp).
Proof.
  split_and!.
  - intros w Hw. destruct (well_group_of tl tp fmt w Hw) as (g & Hg & Hwg).
    exists g. split_and!; [done..|].
    intros g' Hg' Hwg'. by apply (well_groups_disjoint tl tp fmt g' g w).
  - intros g1 g2 Hg1 Hg2 Hne w Hw1 Hw2.
    by apply Hne, (well_groups_disjoint tl tp fmt g1 g2 w).
  - intros w. split; [|apply well_group_of].
    intros (g & Hg & Hw). by apply (elem_of_well_group tl tp fmt g w).
  - intros w1 w2 Hw1 Hw2. split.
    + intros (g & Hg & Hg1 & Hg2).
      destruct (elem_of_well_group _ _ _ _ _ Hg Hg2) as [_ ->].
      by apply elem_of_tuple_of_set, list_elem_of_filter in Hg1 as [? _].
    + intros Hsig. eexists. split_and!.
      * apply elem_of_get_well_permutations. by exists w1.
      * apply elem_of_tuple_of_set, list_elem_of_filter. by split.
      * apply elem_of_tuple_of_set, list_elem_of_filter. by split.
Qed.

(** ** Groups of events *)

Section event_permutations.
Variable plates : gmap string plate_format.

(** The inner loop of [get_event_permutations]: the event is filed under
    each well of the plate that it affects. *)
Lemma event_wells_lookup (e : Event.t) (ids : list string)
    (d : gmap string (list Event.t)) (w : string) :
  NoDup ids →
  foldl (λ d well, if bool_decide (well ∈ Event.get_well_ids e)
                   then dict_add d well e else d) d ids !! w
  = if decide (w ∈ ids ∧ w ∈ Event.get_well_ids e)
    then Some (default [] (d !! w) ++ [e]) else d !! w.
Proof.
  intros Hnd. revert d. induction Hnd as [|a ids Ha Hnd IH]; intros d.
  { cbn [foldl]. rewrite decide_False; [done|]. by intros [?%elem_of_nil _]. }
  cbn [foldl]. rewrite IH. destruct (decide (a = w)) as [->|Hne].
  - rewrite (decide_False (P := w ∈ ids ∧ _)) by tauto.
    case_bool_decide as Hw.
    + rewrite dict_add_lookup, decide_True by done.
      rewrite decide_True; [done|]. split; [left|done].
    + rewrite decide_False; [done|tauto].
  - assert ((if bool_decide (a ∈ Event.get_well_ids e)
             then dict_add d a e else d) !! w = d !! w) as ->.
    { case_bool_decide; [|done]. by rewrite dict_add_lookup, decide_False. }
    apply decide_ext. rewrite elem_of_cons.
    split; [intros [Hin Hwe]; split; [by right|done]|].
    intros [[Heq|Hin] Hwe]; [congruence|done].
Qed.

Lemma event_dict_Ok (evs : list Event.t) (d : gmap string (list Event.t)) :
  Forall (λ e, is_Some (plates !! Event.get_plate_id e)) evs →
  ∃ d', Timeline.event_dict plates evs d = Ok d'
    ∧ ∀ w, d' !! w
        = match filter (λ e, w ∈ Event.get_well_ids e ∧ on_plate plates e w) evs with
          | [] => d !! w
          | l => Some (default [] (d !! w) ++ l)
          end.
Proof.
  intros Hreg. revert d. induction Hreg as [|e evs [fmt Hfmt] Hreg IH]; intros d.
  { by exists d. }
  cbn [Timeline.event_dict]. unfold PlateDesign.get_plate_format.
  rewrite Hfmt. cbn [mbind result_bind].
  destruct (IH (foldl (λ d well, if bool_decide (well ∈ Event.get_well_ids e)
                                 then dict_add d well e else d)
                      d (PlateDesign.get_well_ids fmt))) as (d' & -> & Hd').
  exists d'. split; [done|]. intros w.
  rewrite Hd', event_wells_lookup by apply get_well_ids_NoDup.
  rewrite filter_cons.
  assert (on_plate plates e w ↔ w ∈ PlateDesign.get_well_ids fmt) as Hon
    by (unfold on_plate; by rewrite Hfmt).
  destruct (decide (w ∈ Event.get_well_ids e ∧ on_plate plates e w)) as [Hw|Hw].
  - rewrite decide_True by tauto. simpl.
    destruct (filter _ evs) as [|e' l]; [done|]. by rewrite <- (assoc_L (++)).
  - by rewrite decide_False by tauto.
Qed.

Lemma event_dict_KeyError (evs : list Event.t) (d : gmap string (list Event.t)) :
  Exists (λ e, plates !! Event.get_plate_id e = None) evs →
  Timeline.event_dict plates evs d = Raise KeyError.
Proof.
  intros Hex. revert d. induction Hex as [e evs He|e evs Hex IH]; intros d.
  - cbn [Timeline.event_dict]. unfold PlateDesign.get_plate_format.
    by rewrite He.
  - cbn [Timeline.event_dict]. unfold PlateDesign.get_plate_format.
    destruct (plates !! Event.get_plate_id e) as [fmt|]; [|done].
    cbn [mbind result_bind]. apply IH.
Qed.

Lemma event_dict_Ok_inv (evs : list Event.t) (d d' : gmap string (list Event.t)) :
  Timeline.event_dict plates evs d = Ok d' →
  Forall (λ e, is_Some (plates !! Event.get_plate_id e)) evs.
Proof.
  intros Hd. apply Forall_forall. intros e He.
  destruct (plates !! Event.get_plate_id e) as [fmt|] eqn:Hfmt; [done|].
  rewrite event_dict_KeyError in Hd; [done|].
  apply Exists_exists. by exists e.
Qed.

Variables (tl : Timeline.t) (tp : Z).

Lemma placed_events_filter (w : string) :
  filter (λ e, w ∈ Event.get_well_ids e ∧ on_plate plates e w)
         (Timeline.get_events_at_timepoint tl tp)
  = placed_events plates tl w tp.
Proof.
  unfold placed_events, Timeline.get_events_in_well.
  rewrite list_filter_filter. apply list_filter_iff. tauto.
Qed.

Lemma elem_of_placed_events (w : string) (e : Event.t) :
  e ∈ placed_events plates tl w tp ↔
  e ∈ Timeline.get_events_at_timepoint tl tp
  ∧ w ∈ Event.get_well_ids e ∧ on_plate plates e w.
Proof.
  unfold placed_events, Timeline.get_events_in_well.
  rewrite !list_elem_of_filter. tauto.
Qed.

(** The dictionary of [get_event_permutations], then its groups. *)
Lemma event_dict_lookup (d : gmap string (list Event.t)) (w : string) :
  Timeline.event_dict plates (Timeline.get_events_at_timepoint tl tp) ∅ = Ok d →
  d !! w = match placed_events plates tl w tp with
           | [] => None
           | l => Some l
           end.
Proof.
  intros Hd.
  destruct (event_dict_Ok (Timeline.get_events_at_timepoint tl tp) ∅)
    as (d' & Hd' & Hlookup); [by eapply event_dict_Ok_inv|].
  rewrite Hd in Hd'. injection Hd' as <-.
  by rewrite Hlookup, placed_events_filter, lookup_empty.
Qed.

Lemma get_event_permutations_Ok_inv (G : gset (list Event.t)) :
  Timeline.get_event_permutations plates tl tp = Ok G →
  ∃ d, Timeline.event_dict plates (Timeline.get_events_at_timepoint tl tp) ∅ = Ok d
     ∧ G = dict_groups d.
Proof.
  unfold Timeline.get_event_permutations.
  destruct (Timeline.event_dict _ _ _) as [d|]; [|done].
  intros [= <-]. by exists d.
Qed.

Lemma elem_of_get_event_permutations (G : gset (list Event.t)) (g : list Event.t) :
  Timeline.get_event_permutations plates tl tp = Ok G →
  g ∈ G ↔ ∃ w, placed_events plates tl w tp ≠ []
             ∧ g = tuple_of_set (placed_events plates tl w tp).
Proof.
  intros (d & Hd & ->)%get_event_permutations_Ok_inv.
  rewrite elem_of_dict_groups. split.
  - intros (w & l & Hw & ->). rewrite (event_dict_lookup d w Hd) in Hw.
    exists w. by destruct (placed_events plates tl w tp); simplify_eq.
  - intros (w & Hne & ->). exists w, (placed_events plates tl w tp).
    split; [|done]. rewrite (event_dict_lookup d w Hd).
    by destruct (placed_events plates tl w tp).
Qed.

End event_permutations.

Lemma filter_Forall_id {A} (P : A → Prop) `{!∀ x, Decision (P x)} (l : list A) :
  Forall P l → filter P l = l.
Proof.
  induction 1 as [|x l Hx Hl IH]; [done|].
  by rewrite filter_cons_True, IH.
Qed.

(** C7, amended. When the plate of every event at the timepoint was added,
    [get_event_permutations] returns a group for each well that is, for
    some event at the timepoint that affects it, a well of the plate of
    that event; the group is made of the events at the timepoint that
    affect the well on a plate that has it.  No group is empty, and two
    wells give the same group exactly when these events are the same.
    When every affected well is a well of the plate of its event, these
    are all the events at the timepoint that affect the well. *)
Theorem get_event_permutations_groups (plates : gmap string plate_format)
    (tl : Timeline.t) (tp : Z) :
  Forall (λ e, is_Some (plates !! Event.get_plate_id e))
         (Timeline.get_events_at_timepoint tl tp) →
  ∃ G, Timeline.get_event_permutations plates tl tp = Ok G
    ∧ (∀ g, g ∈ G ↔ ∃ w, placed_events plates tl w tp ≠ []
                       ∧ g = tuple_of_set (placed_events plates tl w tp))
    ∧ ([] ∉ G)
    ∧ (∀ w1 w2, tuple_of_set (placed_events plates tl w1 tp)
                = tuple_of_set (placed_events plates tl w2 tp)
                ↔ ∀ e, e ∈ placed_events plates tl w1 tp
                       ↔ e ∈ placed_events plates tl w2 tp)
    ∧ ((∀ e w, e ∈ Timeline.get_events_at_timepoint tl tp →
               w ∈ Event.get_well_ids e → on_plate plates e w) →
       ∀ w, placed_events plates tl w tp = Timeline.get_events_in_well tl w tp).
Proof.
  intros Hreg.
  destruct (event_dict_Ok plates _ ∅ Hreg) as (d & Hd & _).
  assert (Timeline.get_event_permutations plates tl tp = Ok (dict_groups d))
    as HG by (unfold Timeline.get_event_permutations; by rewrite Hd).
  exists (dict_groups d). split_and!; [done|..].
  - intros g. exact (elem_of_get_event_permutations plates tl tp _ g HG).
  - intros (w & Hne & Hnil)%(elem_of_get_event_permutations _ _ _ _ _ HG).
    symmetry in Hnil. by apply (proj1 (tuple_of_set_nil _)) in Hnil.
  - intros w1 w2. apply tuple_of_set_eq.
  - intros Hon w. unfold placed_events. apply filter_Forall_id.
    apply Forall_forall. intros e He. unfold Timeline.get_events_in_well in He.
    apply list_elem_of_filter in He as [Hw He]. by apply Hon.
Qed.

Lemma get_event_permutations_groups_witness :
  Forall (λ e, is_Some (fred_plates !! Event.get_plate_id e))
         (Timeline.get_events_at_timepoint scenario 2)
  ∧ ∃ G, Timeline.get_event_permutations fred_plates scenario 2 = Ok G
       ∧ ([] ∉ G).
Proof.
  assert (Forall (λ e, is_Some (fred_plates !! Event.get_plate_id e))
                 (Timeline.get_events_at_timepoint scenario 2)) as Hreg
    by (apply (bool_decide_unpack _); vm_compute; exact I).
  split; [exact Hreg|].
  destruct (get_event_permutations_groups fred_plates scenario 2 Hreg)
    as (G & HG & _ & Hne & _).
  exists G. split; [exact HG | exact Hne].
Defined.

Lemma off_plate_permutations :
  Timeline.get_event_permutations fred_plates off_plate 1 = Ok ∅.
Proof. by vm_compute. Qed.

(** C7 as it is written fails for an event on a well that its plate does
    not have: the well is affected by the event, and no group is
    returned. *)
Lemma off_plate_not_groups_of_affected_wells :
  ¬ groups_of_affected_wells fred_plates off_plate 1.
Proof.
  intros (G & HG & Hiff). rewrite off_plate_permutations in HG.
  injection HG as <-.
  apply (not_elem_of_empty (C := gset (list Event.t))
           (tuple_of_set (Timeline.get_events_in_well off_plate "C01" 1))).
  apply Hiff. exists "C01". split; [|done]. by vm_compute.
Qed.



(** ** The lineage tree *)

Lemma ForallOrdPairs_lookup {A} (R : A → A → Prop) (l : list A) :
  ForallOrdPairs R l →
  ∀ i j a b, i < j → l !! i = Some a → l !! j = Some b → R a b.
Proof.
  induction 1 as [|x l Hx Hl IH]; intros i j a b Hij Ha Hb; [done|].
  destruct j as [|j]; [lia|]. destruct i as [|i].
  - simplify_eq/=. eapply Forall_forall; [done|]. by eapply list_elem_of_lookup_2.
  - eapply (IH i j); [lia|done..].
Qed.

Lemma Node_nodes_unfold (n : LineageNode) :
  Node.nodes n = n :: (Node.get_children n ≫= Node.nodes).
Proof.
  destruct n as [p i ws tp cs]. cbn [Node.nodes Node.get_children].
  reflexivity.
Qed.

Section lineage.
Variable tl : Timeline.t.

Lemma build_tree_well_ids later parent id ws tp :
  Node.get_well_ids (Timeline.build_tree tl later parent id ws tp) = ws.
Proof. by destruct later. Qed.

Lemma build_tree_timepoint later parent id ws tp :
  Node.timepoint (Timeline.build_tree tl later parent id ws tp) = tp.
Proof. by destruct later. Qed.

Lemma build_tree_id later parent id ws tp :
  Node.id (Timeline.build_tree tl later parent id ws tp) = id.
Proof. by destruct later. Qed.

Lemma build_tree_parent later parent id ws tp :
  Node.get_parent (Timeline.build_tree tl later parent id ws tp) = parent.
Proof. by destruct later. Qed.

Lemma build_tree_children tp' later parent id ws tp :
  Node.get_children (Timeline.build_tree tl (tp' :: later) parent id ws tp)
  = imap (λ i wellset,
            Timeline.build_tree tl later (Some id) (id +:+ ":" +:+ str_of_nat i)
                                wellset tp')
         (Timeline.subwells tl ws tp').
Proof. done. Qed.

Lemma elem_of_sorted_str (l : list string) (w : string) :
  w ∈ sorted_str l ↔ w ∈ l.
Proof. unfold sorted_str. by rewrite merge_sort_Permutation. Qed.

(** The wells of the part of a group that is in the parent. *)
Lemma elem_of_wellset (parent_wells wells : list string) (w : string) :
  w ∈ sorted_str (elements ((list_to_set parent_wells : gset string)
                              ∩ list_to_set wells))
  ↔ w ∈ parent_wells ∧ w ∈ wells.
Proof.
  by rewrite elem_of_sorted_str, elem_of_elements, elem_of_intersection,
    !elem_of_list_to_set.
Qed.

Lemma elem_of_subwells (parent_wells : list string) (tp : Z) (ws : list string) :
  ws ∈ Timeline.subwells tl parent_wells tp ↔
  ws ≠ [] ∧ ∃ g, g ∈ Timeline.get_well_permutations tl tp P6
    ∧ ws = sorted_str (elements ((list_to_set parent_wells : gset string)
                                   ∩ list_to_set g)).
Proof.
  unfold Timeline.subwells.
  rewrite list_elem_of_filter, list_elem_of_fmap.
  setoid_rewrite elem_of_elements.
  assert (0 < length ws ↔ ws ≠ []) as ->
    by (destruct ws; simpl; split; [lia|done|done|lia]).
  split; intros [Hne (g & H1 & H2)]; (split; [done|]); by exists g.
Qed.

Lemma subwells_union (parent_wells : list string) (tp : Z) (w : string) :
  (∃ ws, ws ∈ Timeline.subwells tl parent_wells tp ∧ w ∈ ws)
  ↔ w ∈ parent_wells ∧ w ∈ PlateDesign.get_well_ids P6.
Proof.
  split.
  - intros (ws & (_ & g & Hg & ->)%elem_of_subwells & Hw).
    apply elem_of_wellset in Hw as [Hw1 Hw2]. split; [done|].
    by apply (elem_of_well_group tl tp P6 g w).
  - intros (Hw & Hp6).
    destruct (well_group_of tl tp P6 w Hp6) as (g & Hg & Hwg).
    eexists. split.
    + apply elem_of_subwells. split; [|by exists g].
      intros Hnil.
      assert (w ∈ sorted_str (elements ((list_to_set parent_wells : gset string)
                                          ∩ list_to_set g))) as Hin
        by by apply elem_of_wellset.
      rewrite Hnil in Hin. by apply elem_of_nil in Hin.
    + by apply elem_of_wellset.
Qed.

Lemma subwells_pairwise (parent_wells : list string) (tp : Z) :
  ForallOrdPairs (λ a b : list string, ∀ w, w ∈ a → w ∉ b)
                 (Timeline.subwells tl parent_wells tp).
Proof.
  unfold Timeline.subwells.
  assert (NoDup (elements (Timeline.get_well_permutations tl tp P6))) as Hnd
    by apply NoDup_elements.
  assert (∀ g, g ∈ elements (Timeline.get_well_permutations tl tp P6) →
               g ∈ Timeline.get_well_permutations tl tp P6) as Hin
    by (intros g; apply elem_of_elements).
  induction Hnd as [|g gs Hg Hnd IH]; [constructor|].
  rewrite fmap_cons, filter_cons.
  assert (ForallOrdPairs (λ a b : list string, ∀ w, w ∈ a → w ∉ b)
            (filter (λ wellset, 0 < length wellset)
               ((λ wells, sorted_str
                   (elements ((list_to_set parent_wells : gset string)
                                ∩ list_to_set wells))) <$> gs))) as Hrest
    by (apply IH; intros g' Hg'; apply Hin; by right).
  case_decide; [|done]. constructor; [|done].
  apply Forall_forall.
  intros ws Hws. apply list_elem_of_filter in Hws as [_ Hws].
  apply list_elem_of_fmap in Hws as (g' & -> & Hg').
  intros w [_ Hw1]%elem_of_wellset [_ Hw2]%elem_of_wellset.
  apply Hg.
  rewrite (well_groups_disjoint tl tp P6 g g' w); [done|..|done|done].
  - apply Hin. by left.
  - apply Hin. by right.
Qed.

Lemma subwells_disjoint (parent_wells : list string) (tp : Z) i j ws1 ws2 :
  i ≠ j →
  Timeline.subwells tl parent_wells tp !! i = Some ws1 →
  Timeline.subwells tl parent_wells tp !! j = Some ws2 →
  ∀ w, w ∈ ws1 → w ∉ ws2.
Proof.
  intros Hij H1 H2 w Hw1 Hw2.
  pose proof (subwells_pairwise parent_wells tp) as Hpw.
  destruct (decide (i < j)).
  - by eapply (ForallOrdPairs_lookup _ _ Hpw i j ws1 ws2).
  - eapply (ForallOrdPairs_lookup _ _ Hpw j i ws2 ws1); [lia|done..].
Qed.

Lemma build_tree_node_inv later parent id ws tp :
  node_inv (Timeline.build_tree tl later parent id ws tp).
Proof.
  destruct later as [|tp' later].
  { split_and!.
    - intros c Hc. by apply elem_of_nil in Hc.
    - by intros i j c1 c2 _ Hc1.
    - by intros Hne. }
  unfold node_inv.
  rewrite build_tree_children, build_tree_well_ids, build_tree_id.
  assert (∀ c, c ∈ imap (λ i wellset,
                 Timeline.build_tree tl later (Some id)
                   (id +:+ ":" +:+ str_of_nat i) wellset tp')
               (Timeline.subwells tl ws tp') →
            Node.get_well_ids c ∈ Timeline.subwells tl ws tp'
            ∧ Node.timepoint c = tp') as Hchild.
  { intros c (i & wellset & -> & Hi)%elem_of_lookup_imap.
    rewrite build_tree_well_ids, build_tree_timepoint.
    split; [|done]. by eapply list_elem_of_lookup_2. }
  split_and!.
  - intros c Hc. split.
    + apply elem_of_lookup_imap in Hc as (i & wellset & -> & _).
      apply build_tree_parent.
    + apply Hchild in Hc as [Hc _]. intros w Hw.
      eapply subwells_union. eauto.
  - intros i j c1 c2 Hij Hc1 Hc2.
    rewrite list_lookup_imap in Hc1, Hc2.
    destruct (Timeline.subwells tl ws tp' !! i) as [ws1|] eqn:H1; [|done].
    destruct (Timeline.subwells tl ws tp' !! j) as [ws2|] eqn:H2; [|done].
    injection Hc1 as <-. injection Hc2 as <-. rewrite !build_tree_well_ids.
    by eapply subwells_disjoint.
  - intros _ w. rewrite <- (subwells_union ws tp' w). split.
    + intros (c & [Hc _]%Hchild & Hw). eauto.
    + intros (wellset & [i Hi]%list_elem_of_lookup & Hw).
      eexists. split; [by eapply elem_of_lookup_imap_2|].
      by rewrite build_tree_well_ids.
Qed.

Lemma build_tree_nodes_inv later parent id ws tp n :
  n ∈ Node.nodes (Timeline.build_tree tl later parent id ws tp) →
  node_inv n.
Proof.
  revert parent id ws tp. induction later as [|tp' later IH];
    intros parent id ws tp; rewrite Node_nodes_unfold, elem_of_cons.
  - intros [->|Hn]; [apply build_tree_node_inv|]. by apply elem_of_nil in Hn.
  - intros [->|Hn]; [apply build_tree_node_inv|].
    rewrite build_tree_children in Hn.
    apply list_elem_of_bind in Hn as (c & Hn & Hc).
    apply elem_of_lookup_imap in Hc as (i & wellset & -> & _).
    by eapply IH.
Qed.

Lemma get_unique_timepoints_nil :
  Timeline.get_unique_timepoints tl = [] → Timeline.events tl = [].
Proof.
  unfold Timeline.get_unique_timepoints, sorted_Z. intros Hnil.
  destruct (Timeline.events tl) as [|e evs]; [done|].
  assert (Event.get_timepoint e ∈ merge_sort Z.le
            (tuple_of_set (Event.get_timepoint <$> e :: evs))) as Hin.
  { rewrite merge_sort_Permutation. apply elem_of_tuple_of_set. left. }
  rewrite Hnil in Hin. by apply elem_of_nil in Hin.
Qed.

End lineage.

(** C3, amended. The lineage tree of a timeline with events is built, and
    for each of its nodes, the parent of its children: the wells of a
    child are wells of the node; two children have no well in common; and
    when the node has children, the wells of the children together are
    the wells of the node that are well ids of the plate format of 6
    wells, whatever the timepoint of the children and the plates of the
    events. *)
Theorem get_lineage_tree_inv (tl : Timeline.t) :
  Timeline.events tl ≠ [] →
  ∃ tree, Timeline.get_lineage_tree tl = Ok tree
    ∧ ∀ n, n ∈ Node.nodes tree → node_inv n.
Proof.
  intros Hev. unfold Timeline.get_lineage_tree.
  destruct (Timeline.get_unique_timepoints tl) as [|tp0 later] eqn:Htps.
  { by apply get_unique_timepoints_nil in Htps. }
  eexists. split; [done|].
  intros n. apply build_tree_nodes_inv.
Qed.

Lemma get_lineage_tree_inv_witness :
  Timeline.events scenario ≠ []
  ∧ ∃ tree, Timeline.get_lineage_tree scenario = Ok tree
      ∧ (∀ n, n ∈ Node.nodes tree → node_inv n).
Proof.
  assert (Timeline.events scenario ≠ []) as Hev by (vm_compute; discriminate).
  split; [exact Hev|].
  destruct (get_lineage_tree_inv scenario Hev) as (tree & Htree & Hinv).
  exists tree. split; [exact Htree | exact Hinv].
Defined.

Lemma big_plate_tree :
  Timeline.get_lineage_tree big_plate
  = Ok (Node None "U2OS" (Timeline.get_well_ids big_plate None) 1
          [Node (Some "U2OS") "U2OS:0" ["A01"] 2 []]).
Proof. vm_compute. reflexivity. Qed.

(** C3 as it is written fails when the events are on a plate that is not
    one of 6 wells.  On a plate of 96 wells with A01 and C01 seeded and
    C01 treated at the next timepoint, the root has the wells A01 and C01
    and one child, with the well A01: the well C01 is a well of the root,
    a well of the plate and a well of an event at the timepoint of the
    child, and it is a well of no child. *)
Lemma big_plate_not_covered :
  ¬ lineage_tree_covers (wells_defined_at big_plates big_plate) big_plate
  ∧ ¬ lineage_tree_covers (wells_tracked_at big_plate) big_plate.
Proof.
  assert (∀ D, "C01" ∈ D 2%Z → ¬ lineage_tree_covers D big_plate) as Hnot.
  { intros D HD Hcov.
    destruct (Hcov _ big_plate_tree _ ltac:(left)) as (_ & _ & Hcover).
    cbn [Node.get_children Node.get_well_ids Node.timepoint] in Hcover.
    destruct (proj2 (Hcover _ ltac:(left) "C01")) as (c & Hc & Hw).
    { split; [|exact HD]. apply (bool_decide_unpack _). vm_compute. exact I. }
    apply list_elem_of_singleton in Hc as ->.
    cbn [Node.get_well_ids] in Hw.
    by apply list_elem_of_singleton in Hw. }
  split; apply Hnot; apply (bool_decide_unpack _); vm_compute; exact I.
Qed.

(** * Further properties *)

(** ** The event log under [add_event] *)

Lemma chronological_nil : chronological [].
Proof. by intros i j e1 e2 _ Hi. Qed.

Lemma chronological_cons (e : Event.t) (evs : list Event.t) :
  chronological (e :: evs) ↔
  Forall (λ e', (Event.get_timepoint e ≤ Event.get_timepoint e')%Z) evs
  ∧ chronological evs.
Proof.
  split.
  - intros Hchron. split.
    + apply Forall_lookup. intros p e' Hp.
      by apply (Hchron 0 (S p)); [lia|..].
    + intros i j e1 e2 Hij Hi Hj. by apply (Hchron (S i) (S j)); [lia|..].
  - intros [Hall Hchron] i j e1 e2 Hij Hi Hj.
    destruct j as [|j]; [lia|]. destruct i as [|i].
    + simplify_eq/=. by eapply (proj1 (Forall_lookup _ _) Hall).
    + apply (Hchron i j); [lia|done..].
Qed.

Section add_event_position.
Variables (evt : Event.t) (evs : list Event.t).

(** The loop inserts the event once, somewhere after the first event. *)
Lemma add_event_loop_insert (i : nat) :
  i < length evs →
  ∃ k, 1 ≤ k ≤ length evs
     ∧ Timeline.add_event_loop evt evs i = list_insert_at k evt evs.
Proof.
  intros Hi. induction i as [|i IH]; cbn [Timeline.add_event_loop].
  - destruct (lookup_lt_is_Some_2 evs 0 Hi) as [e ->].
    rewrite (bool_decide_eq_true_2 (0 = 0)), orb_true_r by done.
    exists 1. split; [lia|done].
  - destruct (lookup_lt_is_Some_2 evs (S i) Hi) as [e ->].
    destruct (_ || _).
    + exists (S i + 1). split; [lia|done].
    + apply IH. lia.
Qed.

(** Where the loop inserts when the first event is earlier than the new
    one: after the events that are earlier, before those that are not. *)
Lemma add_event_loop_position (i : nat) (e0 : Event.t) :
  chronological evs →
  evs !! 0 = Some e0 →
  (Event.get_timepoint e0 < Event.get_timepoint evt)%Z →
  i < length evs →
  (∀ p e, i < p → evs !! p = Some e →
     (Event.get_timepoint evt ≤ Event.get_timepoint e)%Z) →
  ∃ k, Timeline.add_event_loop evt evs i = list_insert_at k evt evs
     ∧ Forall (λ e, (Event.get_timepoint e < Event.get_timepoint evt)%Z)
              (take k evs)
     ∧ Forall (λ e, (Event.get_timepoint evt ≤ Event.get_timepoint e)%Z)
              (drop k evs).
Proof.
  intros Hchron He0 Hlt Hi Hlater.
  induction i as [|i IH]; cbn [Timeline.add_event_loop].
  - rewrite He0. rewrite (bool_decide_eq_true_2 (0 = 0)), orb_true_r by done.
    exists 1. split_and!; [done|..]; apply Forall_lookup; intros p e.
    + intros [Hp ?]%lookup_take_Some. assert (p = 0) as -> by lia.
      by simplify_eq.
    + rewrite lookup_drop. apply Hlater. lia.
  - destruct (lookup_lt_is_Some_2 evs (S i) Hi) as [e He]. rewrite He.
    rewrite (bool_decide_eq_false_2 (S i = 0)), orb_false_r by done.
    case_bool_decide as Hgt.
    + exists (S i + 1). split_and!; [done|..]; apply Forall_lookup; intros p e'.
      * intros [Hp ?]%lookup_take_Some.
        destruct (decide (p = S i)) as [->|Hne]; [simplify_eq; lia|].
        assert (Event.get_timepoint e' ≤ Event.get_timepoint e)%Z
          by (apply (Hchron p (S i)); [lia|done..]).
        lia.
      * rewrite lookup_drop. apply Hlater. lia.
    + apply IH; [lia|]. intros p e' Hp He'.
      destruct (decide (p = S i)) as [->|Hne]; [simplify_eq; lia|].
      apply (Hlater p); [lia|done].
Qed.

End add_event_position.

Lemma add_event_events (tl : Timeline.t) (tp : Z) (action plate_id : string)
    (well_ids : list string) :
  ∃ k, k ≤ length (Timeline.events tl)
     ∧ Timeline.events (Timeline.add_event tl tp action plate_id well_ids).1
       = list_insert_at k (Timeline.add_event tl tp action plate_id well_ids).2
                        (Timeline.events tl).
Proof.
  unfold Timeline.add_event. cbn [fst snd Timeline.events].
  case_bool_decide as Hlen.
  - exists 0. split; [lia|]. by destruct (Timeline.events tl).
  - destruct (add_event_loop_insert
                (Event.new (Timeline.fresh_id (Timeline.events tl)) tp action
                           plate_id well_ids)
                (Timeline.events tl) (length (Timeline.events tl) - 1))
      as (k & Hk & ->); [lia|].
    exists k. split; [lia|done].
Qed.

Lemma add_event_fresh (tl : Timeline.t) (tp : Z) (action plate_id : string)
    (well_ids : list string) :
  (Timeline.add_event tl tp action plate_id well_ids).2 ∉ Timeline.events tl.
Proof.
  unfold Timeline.add_event. cbn [snd]. intros Hin.
  assert (Timeline.fresh_id (Timeline.events tl)
          ∈ Event.id <$> Timeline.events tl) as Hid.
  { apply list_elem_of_fmap. eexists. split; [|exact Hin]. done. }
  apply max_list_elem_of_le in Hid. unfold Timeline.fresh_id in Hid. lia.
Qed.

Lemma filter_list_insert_at {A} (P : A → Prop) `{!∀ x, Decision (P x)}
    (k : nat) (x : A) (l : list A) :
  filter P (list_insert_at k x l)
  = if decide (P x) then list_insert_at (length (filter P (take k l))) x (filter P l)
    else filter P l.
Proof.
  assert (filter P l = filter P (take k l) ++ filter P (drop k l)) as Hsplit
    by by rewrite <- filter_app, take_drop.
  unfold list_insert_at. rewrite filter_app, filter_cons.
  case_decide; [|done].
  by rewrite Hsplit, take_app_length, drop_app_length.
Qed.

(** X1. [add_event] returns a new event with the fields it was given, and
    puts it into the list once: the events that were there are all kept,
    in the order they had, around it; the stock is not changed. *)
Theorem add_event_inserts (tl : Timeline.t) (tp : Z) (action plate_id : string)
    (well_ids : list string) :
  let tl' := (Timeline.add_event tl tp action plate_id well_ids).1 in
  let evt := (Timeline.add_event tl tp action plate_id well_ids).2 in
  Event.get_timepoint evt = tp
  ∧ Event.get_action evt = action
  ∧ Event.get_plate_id evt = plate_id
  ∧ Event.get_well_ids evt = well_ids
  ∧ (evt ∉ Timeline.get_event_list tl)
  ∧ (∃ k, k ≤ length (Timeline.get_event_list tl)
        ∧ Timeline.get_event_list tl'
          = take k (Timeline.get_event_list tl)
            ++ evt :: drop k (Timeline.get_event_list tl))
  ∧ length (Timeline.get_event_list tl')
    = S (length (Timeline.get_event_list tl))
  ∧ Timeline.get_event_list tl `sublist_of` Timeline.get_event_list tl'
  ∧ Timeline.stock tl' = Timeline.stock tl.
Proof.
  cbn zeta. unfold Timeline.get_event_list.
  destruct (add_event_events tl tp action plate_id well_ids) as (k & Hk & Hev).
  split_and!;
    [done|done|done|done|apply add_event_fresh|by exists k| | |done].
  - rewrite Hev. unfold list_insert_at.
    rewrite length_app, length_cons, length_take, length_drop. lia.
  - rewrite Hev. unfold list_insert_at.
    rewrite <- (take_drop k (Timeline.events tl)) at 1.
    apply sublist_app; [done|]. by apply sublist_cons.
Qed.

(** X4. When the events are in chronological order and the first one is
    earlier than the new timepoint, [add_event] puts the new event after
    all the events that are earlier than it and before all the others:
    before the events that already have its timepoint. *)
Theorem add_event_before_equal (tl : Timeline.t) (tp : Z)
    (action plate_id : string) (well_ids : list string) (e0 : Event.t) :
  chronological (Timeline.events tl) →
  Timeline.events tl !! 0 = Some e0 →
  (Event.get_timepoint e0 < tp)%Z →
  let tl' := (Timeline.add_event tl tp action plate_id well_ids).1 in
  let evt := (Timeline.add_event tl tp action plate_id well_ids).2 in
  ∃ k, Timeline.get_event_list tl'
       = take k (Timeline.events tl) ++ evt :: drop k (Timeline.events tl)
     ∧ Forall (λ e, (Event.get_timepoint e < tp)%Z) (take k (Timeline.events tl))
     ∧ Forall (λ e, (tp ≤ Event.get_timepoint e)%Z) (drop k (Timeline.events tl)).
Proof.
  intros Hchron He0 Htp. cbn zeta.
  assert (0 < length (Timeline.events tl)) as Hlen
    by by apply lookup_lt_Some in He0.
  unfold Timeline.add_event, Timeline.get_event_list. cbn [fst snd Timeline.events].
  rewrite bool_decide_eq_false_2 by lia.
  destruct (add_event_loop_position
              (Event.new (Timeline.fresh_id (Timeline.events tl)) tp action
                         plate_id well_ids)
              (Timeline.events tl) (length (Timeline.events tl) - 1) e0)
    as (k & -> & Hbefore & Hafter); [done..|lia| |by exists k].
  intros p e Hp He. apply lookup_lt_Some in He. lia.
Qed.

(** ** The queries of a timeline *)

Lemma StronglySorted_lookup {A} (R : A → A → Prop) (l : list A) :
  StronglySorted R l →
  ∀ i j a b, i < j → l !! i = Some a → l !! j = Some b → R a b.
Proof.
  induction 1 as [|x l Hl IH Hx]; intros i j a b Hij Ha Hb; [done|].
  destruct j as [|j]; [lia|]. destruct i as [|i].
  - simplify_eq/=. eapply Forall_forall; [done|]. by eapply list_elem_of_lookup_2.
  - eapply (IH i j); [lia|done..].
Qed.

Section queries.
Variable tl : Timeline.t.

Lemma elem_of_get_events_at_timepoint (tp : Z) (e : Event.t) :
  e ∈ Timeline.get_events_at_timepoint tl tp ↔
  e ∈ Timeline.events tl ∧ Event.get_timepoint e = tp.
Proof.
  unfold Timeline.get_events_at_timepoint. rewrite list_elem_of_filter. tauto.
Qed.

Lemma elem_of_get_events_in_well (w : string) (tp : Z) (e : Event.t) :
  e ∈ Timeline.get_events_in_well tl w tp ↔
  e ∈ Timeline.events tl ∧ Event.get_timepoint e = tp
  ∧ w ∈ Event.get_well_ids e.
Proof.
  unfold Timeline.get_events_in_well.
  rewrite list_elem_of_filter, elem_of_get_events_at_timepoint. tauto.
Qed.

Lemma elem_of_get_unique_timepoints (t : Z) :
  t ∈ Timeline.get_unique_timepoints tl ↔
  ∃ e, e ∈ Timeline.events tl ∧ Event.get_timepoint e = t.
Proof.
  unfold Timeline.get_unique_timepoints, sorted_Z.
  rewrite merge_sort_Permutation, elem_of_tuple_of_set, list_elem_of_fmap.
  split; intros (e & He1 & He2); by exists e.
Qed.

Lemma NoDup_get_unique_timepoints : NoDup (Timeline.get_unique_timepoints tl).
Proof.
  unfold Timeline.get_unique_timepoints, sorted_Z.
  rewrite merge_sort_Permutation. apply NoDup_tuple_of_set.
Qed.

Lemma get_unique_timepoints_sorted :
  StronglySorted Z.le (Timeline.get_unique_timepoints tl).
Proof.
  unfold Timeline.get_unique_timepoints, sorted_Z.
  apply (StronglySorted_merge_sort Z.le).
Qed.

Lemma get_unique_timepoints_lt (i j : nat) (t1 t2 : Z) :
  i < j →
  Timeline.get_unique_timepoints tl !! i = Some t1 →
  Timeline.get_unique_timepoints tl !! j = Some t2 → (t1 < t2)%Z.
Proof.
  intros Hij H1 H2.
  assert (t1 ≤ t2)%Z
    by exact (StronglySorted_lookup _ _ get_unique_timepoints_sorted
                i j t1 t2 Hij H1 H2).
  assert (t1 ≠ t2).
  { intros ->.
    pose proof (NoDup_lookup _ i j t2 NoDup_get_unique_timepoints H1 H2).
    lia. }
  lia.
Qed.

Lemma get_unique_timepoints_first (t0 : Z) (e : Event.t) :
  Timeline.get_unique_timepoints tl !! 0 = Some t0 →
  e ∈ Timeline.events tl → (t0 ≤ Event.get_timepoint e)%Z.
Proof.
  intros Ht0 He.
  assert (Event.get_timepoint e ∈ Timeline.get_unique_timepoints tl) as Hin
    by (apply elem_of_get_unique_timepoints; by exists e).
  apply list_elem_of_lookup in Hin as [j Hj].
  destruct j as [|j]; [by simplify_eq|].
  assert (t0 < Event.get_timepoint e)%Z
    by (by apply (get_unique_timepoints_lt 0 (S j)); [lia|..]).
  lia.
Qed.

Lemma elem_of_timeline_well_ids (timepoint : option Z) (w : string) :
  w ∈ Timeline.get_well_ids tl timepoint ↔
  ∃ e, e ∈ Timeline.events tl ∧ w ∈ Event.get_well_ids e
     ∧ (timepoint = None ∨ timepoint = Some (Event.get_timepoint e)).
Proof.
  unfold Timeline.get_well_ids, Timeline.get_event_list.
  rewrite elem_of_tuple_of_set, list_elem_of_bind. split.
  - intros (e & Hw & He). case_bool_decide as Htp; [|by apply elem_of_nil in Hw].
    exists e. split_and!; [done..|]. destruct Htp as [<- | ->]; auto.
  - intros (e & He & Hw & Htp). exists e. split; [|done].
    rewrite bool_decide_eq_true_2; [done|]. destruct Htp as [-> | ->]; auto.
Qed.

End queries.

(** X6. [get_unique_timepoints] lists the timepoints of the events, each
    once, in strictly ascending order; its first element, when there is
    one, is the earliest timepoint of the timeline. *)
Theorem get_unique_timepoints_ascending (tl : Timeline.t) :
  (∀ t, t ∈ Timeline.get_unique_timepoints tl ↔
        ∃ e, e ∈ Timeline.events tl ∧ Event.get_timepoint e = t)
  ∧ (∀ i j t1 t2, i < j →
       Timeline.get_unique_timepoints tl !! i = Some t1 →
       Timeline.get_unique_timepoints tl !! j = Some t2 → (t1 < t2)%Z)
  ∧ (∀ t0 e, Timeline.get_unique_timepoints tl !! 0 = Some t0 →
       e ∈ Timeline.events tl → (t0 ≤ Event.get_timepoint e)%Z).
Proof.
  split_and!.
  - apply elem_of_get_unique_timepoints.
  - apply get_unique_timepoints_lt.
  - apply get_unique_timepoints_first.
Qed.

(** X8. [get_well_ids] of a timeline lists, each once, the wells of the
    events at the timepoint, or of all events when no timepoint is given;
    the wells at a timepoint are among the wells of all events. *)
Theorem timeline_well_ids_union (tl : Timeline.t) :
  (∀ w, w ∈ Timeline.get_well_ids tl None ↔
        ∃ e, e ∈ Timeline.get_event_list tl ∧ w ∈ Event.get_well_ids e)
  ∧ (∀ tp w, w ∈ Timeline.get_well_ids tl (Some tp) ↔
        ∃ e, e ∈ Timeline.get_events_at_timepoint tl tp
           ∧ w ∈ Event.get_well_ids e)
  ∧ (∀ timepoint, NoDup (Timeline.get_well_ids tl timepoint))
  ∧ (∀ tp, Timeline.get_well_ids tl (Some tp) ⊆ Timeline.get_well_ids tl None).
Proof.
  split_and!.
  - intros w. rewrite elem_of_timeline_well_ids.
    split; [intros (e & ? & ? & _)|intros (e & ? & ?)]; exists e; auto.
  - intros tp w. rewrite elem_of_timeline_well_ids.
    setoid_rewrite elem_of_get_events_at_timepoint. split.
    + intros (e & ? & ? & [?|?]); [done|]. exists e. by simplify_eq.
    + intros (e & [? <-] & ?). exists e. auto.
  - intros timepoint. apply NoDup_tuple_of_set.
  - intros tp w. rewrite !elem_of_timeline_well_ids.
    intros (e & ? & ? & _). exists e. auto.
Qed.

(** X9. A well has events at a timepoint exactly when [get_well_ids] lists
    it for that timepoint; the events [get_events_in_well] gives are the
    events of the list with the timepoint and the well, in the order of
    the list. *)
Theorem get_events_in_well_touched (tl : Timeline.t) (w : string) (tp : Z) :
  (Timeline.get_events_in_well tl w tp ≠ [] ↔
     w ∈ Timeline.get_well_ids tl (Some tp))
  ∧ (∀ e, e ∈ Timeline.get_events_in_well tl w tp ↔
          e ∈ Timeline.get_event_list tl ∧ Event.get_timepoint e = tp
          ∧ w ∈ Event.get_well_ids e)
  ∧ Timeline.get_events_in_well tl w tp `sublist_of` Timeline.get_event_list tl.
Proof.
  split_and!.
  - rewrite elem_of_timeline_well_ids. split.
    + destruct (Timeline.get_events_in_well tl w tp) as [|e l] eqn:Hl; [done|].
      intros _. assert (e ∈ Timeline.get_events_in_well tl w tp) as He
        by (rewrite Hl; left).
      apply elem_of_get_events_in_well in He as (? & <- & ?).
      exists e. auto.
    + intros (e & He & Hw & [?|Htp]); [done|]. injection Htp as ->.
      assert (e ∈ Timeline.get_events_in_well tl w (Event.get_timepoint e)) as Hin
        by by apply elem_of_get_events_in_well.
      intros Hnil. rewrite Hnil in Hin. by apply elem_of_nil in Hin.
  - apply elem_of_get_events_in_well.
  - unfold Timeline.get_events_in_well, Timeline.get_events_at_timepoint,
      Timeline.get_event_list.
    etrans; apply sublist_filter.
Qed.

(** ** Queries after [add_event] *)

Lemma well_dict_ext (tl1 tl2 : Timeline.t) (tp : Z) (ws : list string) :
  (∀ w, Timeline.get_events_in_well tl1 w tp
        = Timeline.get_events_in_well tl2 w tp) →
  Timeline.well_dict tl1 tp ws = Timeline.well_dict tl2 tp ws.
Proof.
  intros Hext. unfold Timeline.well_dict.
  generalize (∅ : gmap (list Event.t) (list string)).
  induction ws as [|w ws IH]; intros d; [done|]. cbn [foldl].
  by rewrite Hext, IH.
Qed.

Lemma add_event_at_other_timepoint (tl : Timeline.t) (tp : Z)
    (action plate_id : string) (well_ids : list string) (t : Z) :
  t ≠ tp →
  Timeline.get_events_at_timepoint
    (Timeline.add_event tl tp action plate_id well_ids).1 t
  = Timeline.get_events_at_timepoint tl t.
Proof.
  intros Ht. unfold Timeline.get_events_at_timepoint.
  destruct (add_event_events tl tp action plate_id well_ids) as (k & _ & ->).
  rewrite filter_list_insert_at. by rewrite decide_False.
Qed.

(** X5. After [add_event] at a timepoint: the events at any other
    timepoint, the groups of wells and the groups of events at any other
    timepoint are what they were; the events at the timepoint are the new
    event and those there were; the unique timepoints are the timepoint
    and those there were; the wells of the timeline are the wells of the
    event and those there were. *)
Theorem add_event_queries (tl : Timeline.t) (tp : Z) (action plate_id : string)
    (well_ids : list string) :
  let tl' := (Timeline.add_event tl tp action plate_id well_ids).1 in
  let evt := (Timeline.add_event tl tp action plate_id well_ids).2 in
  (∀ t, t ≠ tp →
     Timeline.get_events_at_timepoint tl' t = Timeline.get_events_at_timepoint tl t)
  ∧ (∀ t fmt, t ≠ tp →
       Timeline.get_well_permutations tl' t fmt
       = Timeline.get_well_permutations tl t fmt)
  ∧ (∀ plates t, t ≠ tp →
       Timeline.get_event_permutations plates tl' t
       = Timeline.get_event_permutations plates tl t)
  ∧ Timeline.get_events_at_timepoint tl' tp
    ≡ₚ evt :: Timeline.get_events_at_timepoint tl tp
  ∧ (∀ t, t ∈ Timeline.get_unique_timepoints tl'
          ↔ t = tp ∨ t ∈ Timeline.get_unique_timepoints tl)
  ∧ (∀ w, w ∈ Timeline.get_well_ids tl' None
          ↔ w ∈ well_ids ∨ w ∈ Timeline.get_well_ids tl None).
Proof.
  cbn zeta.
  destruct (add_event_events tl tp action plate_id well_ids) as (k & Hk & Hev).
  assert (∀ e, e ∈ Timeline.events
                     (Timeline.add_event tl tp action plate_id well_ids).1
               ↔ e = (Timeline.add_event tl tp action plate_id well_ids).2
                 ∨ e ∈ Timeline.events tl) as Hin.
  { intros e. rewrite Hev. unfold list_insert_at.
    rewrite elem_of_app, elem_of_cons.
    assert (e ∈ Timeline.events tl ↔ e ∈ take k (Timeline.events tl)
                                      ∨ e ∈ drop k (Timeline.events tl)) as ->
      by by rewrite <- elem_of_app, take_drop.
    tauto. }
  split_and!.
  - intros t. apply add_event_at_other_timepoint.
  - intros t fmt Ht. unfold Timeline.get_well_permutations. f_equal.
    apply well_dict_ext. intros w. unfold Timeline.get_events_in_well.
    by rewrite add_event_at_other_timepoint.
  - intros plates t Ht. unfold Timeline.get_event_permutations.
    by rewrite add_event_at_other_timepoint.
  - unfold Timeline.get_events_at_timepoint. rewrite Hev.
    rewrite filter_list_insert_at, decide_True by done.
    unfold list_insert_at. rewrite <- Permutation_middle.
    by rewrite take_drop.
  - intros t. rewrite !elem_of_get_unique_timepoints. split.
    + intros (e & [->|He]%Hin & <-); [by left|]. right. by exists e.
    + intros [->|(e & He & <-)].
      * eexists. split; [apply Hin; by left|done].
      * exists e. split; [apply Hin; by right|done].
  - intros w. rewrite !elem_of_timeline_well_ids. split.
    + intros (e & [->|He]%Hin & Hw & _); [by left|]. right. exists e. auto.
    + intros [Hw|(e & He & Hw & _)].
      * eexists. split_and!; [apply Hin; by left|exact Hw|by left].
      * exists e. split_and!; [apply Hin; by right|done|by left].
Qed.

(** ** The events of the unique timepoints *)

Lemma filter_partition_join {A B} `{EqDecision B} (f : A → B) (ts : list B)
    (l : list A) :
  NoDup ts → (∀ x, x ∈ l → f x ∈ ts) →
  mjoin ((λ t, filter (λ x, f x = t) l) <$> ts) ≡ₚ l.
Proof.
  intros Hnd. revert l. induction Hnd as [|t ts Ht Hnd IH]; intros l Hl.
  - destruct l as [|x l]; [done|].
    specialize (Hl x ltac:(left)). by apply elem_of_nil in Hl.
  - cbn [fmap list_fmap mjoin list_join].
    etrans; [|apply (filter_app_complement (λ x, f x = t) l)].
    f_equiv.
    assert ((λ t', filter (λ x, f x = t') (filter (λ x, ¬ f x = t) l)) <$> ts
            = (λ t', filter (λ x, f x = t') l) <$> ts) as <-.
    { apply list_fmap_ext. intros i t' Ht'.
      rewrite list_filter_filter. apply list_filter_iff. intros x.
      split; [tauto|]. intros ->. split; [done|]. intros ->.
      apply Ht. by eapply list_elem_of_lookup_2. }
    apply IH. intros x [Hx Hin]%list_elem_of_filter.
    specialize (Hl x Hin). apply elem_of_cons in Hl as [?|?]; done.
Qed.

(** X7. Every event is an event of exactly one unique timepoint: the
    events at the unique timepoints, taken together, are the events of the
    timeline, each as often as it is there. *)
Theorem events_by_unique_timepoint (tl : Timeline.t) :
  mjoin (Timeline.get_events_at_timepoint tl <$> Timeline.get_unique_timepoints tl)
  ≡ₚ Timeline.get_event_list tl
  ∧ (∀ e t1 t2, e ∈ Timeline.get_events_at_timepoint tl t1 →
       e ∈ Timeline.get_events_at_timepoint tl t2 → t1 = t2)
  ∧ (∀ t, t ∈ Timeline.get_unique_timepoints tl ↔
          Timeline.get_events_at_timepoint tl t ≠ []).
Proof.
  split_and!.
  - apply (filter_partition_join Event.get_timepoint).
    + apply NoDup_get_unique_timepoints.
    + intros e He. apply elem_of_get_unique_timepoints. by exists e.
  - intros e t1 t2 [_ <-]%elem_of_get_events_at_timepoint
                   [_ <-]%elem_of_get_events_at_timepoint. done.
  - intros t. rewrite elem_of_get_unique_timepoints. split.
    + intros (e & He & Ht) Hnil.
      assert (e ∈ Timeline.get_events_at_timepoint tl t) as Hin
        by by apply elem_of_get_events_at_timepoint.
      rewrite Hnil in Hin. by apply elem_of_nil in Hin.
    + destruct (Timeline.get_events_at_timepoint tl t) as [|e l] eqn:Hl; [done|].
      intros _. exists e. apply elem_of_get_events_at_timepoint.
      rewrite Hl. left.
Qed.

(** ** Groups of wells: the edges *)

(** X10. The groups of [get_well_permutations] are never empty and list no
    well twice.  At a timepoint without events all wells of the plate are
    in one group; a plate format without wells has no group. *)
Theorem get_well_permutations_edges (tl : Timeline.t) (tp : Z)
    (fmt : plate_format) :
  (∀ g, g ∈ Timeline.get_well_permutations tl tp fmt → g ≠ [] ∧ NoDup g)
  ∧ (Timeline.get_events_at_timepoint tl tp = [] →
     PlateDesign.get_well_ids fmt ≠ [] →
     Timeline.get_well_permutations tl tp fmt
     = {[ tuple_of_set (PlateDesign.get_well_ids fmt) ]})
  ∧ (PlateDesign.get_well_ids fmt = [] →
     Timeline.get_well_permutations tl tp fmt = ∅).
Proof.
  split_and!.
  - intros g (w0 & Hw0 & ->)%elem_of_get_well_permutations.
    split; [|apply NoDup_tuple_of_set].
    intros Hnil. apply (proj1 (tuple_of_set_nil _)) in Hnil.
    by apply (filter_nil_not_elem_of _ _ w0) in Hnil.
  - intros Hnone Hids. apply set_eq. intros g.
    rewrite elem_of_singleton, elem_of_get_well_permutations.
    assert (∀ w0, filter (λ w, Timeline.get_events_in_well tl w tp
                               = Timeline.get_events_in_well tl w0 tp)
                         (PlateDesign.get_well_ids fmt)
                  = PlateDesign.get_well_ids fmt) as Hall.
    { intros w0. apply filter_Forall_id, Forall_forall. intros w _.
      unfold Timeline.get_events_in_well. by rewrite Hnone. }
    split.
    + intros (w0 & _ & ->). by rewrite Hall.
    + intros ->. destruct (PlateDesign.get_well_ids fmt) as [|w0 ids] eqn:Hl;
        [done|]. exists w0. split; [left|]. by rewrite Hall.
  - intros Hids. apply set_eq. intros g.
    rewrite elem_of_get_well_permutations, Hids.
    split; [|by intros ?%not_elem_of_empty].
    by intros (w0 & ?%elem_of_nil & _).
Qed.

(** ** Groups of events: failure and coverage *)

Lemma dict_groups_empty `{Countable K} `{Countable V} :
  dict_groups (∅ : gmap K (list V)) = ∅.
Proof. unfold dict_groups. by rewrite map_to_list_empty. Qed.

(** X11. [get_event_permutations] fails, with a [KeyError], exactly when
    the plate of an event at the timepoint was never added; events at
    other timepoints do not matter.  At a timepoint without events it
    returns no group. *)
Theorem get_event_permutations_KeyError (plates : gmap string plate_format)
    (tl : Timeline.t) (tp : Z) :
  (Timeline.get_event_permutations plates tl tp = Raise KeyError ↔
     ∃ e, e ∈ Timeline.get_events_at_timepoint tl tp
        ∧ plates !! Event.get_plate_id e = None)
  ∧ (∀ x, Timeline.get_event_permutations plates tl tp = Raise x → x = KeyError)
  ∧ (Timeline.get_events_at_timepoint tl tp = [] →
     Timeline.get_event_permutations plates tl tp = Ok ∅).
Proof.
  assert ((∃ e, e ∈ Timeline.get_events_at_timepoint tl tp
              ∧ plates !! Event.get_plate_id e = None) →
          Timeline.get_event_permutations plates tl tp = Raise KeyError)
    as Hfail.
  { intros Hex%Exists_exists. unfold Timeline.get_event_permutations.
    by rewrite event_dict_KeyError. }
  assert (∀ x, Timeline.get_event_permutations plates tl tp = Raise x →
               ∃ e, e ∈ Timeline.get_events_at_timepoint tl tp
                  ∧ plates !! Event.get_plate_id e = None) as Hinv.
  { intros x Hx.
    destruct (decide (Forall (λ e, is_Some (plates !! Event.get_plate_id e))
                             (Timeline.get_events_at_timepoint tl tp)))
      as [Hreg|Hreg].
    - destruct (event_dict_Ok plates _ ∅ Hreg) as (d & Hd & _).
      unfold Timeline.get_event_permutations in Hx. by rewrite Hd in Hx.
    - apply not_Forall_Exists in Hreg; [|apply _].
      apply Exists_exists in Hreg as (e & He & Hnone).
      exists e. split; [done|]. by apply eq_None_not_Some. }
  split_and!.
  - split; [apply Hinv|apply Hfail].
  - intros x Hx. specialize (Hfail (Hinv x Hx)). congruence.
  - intros Hnone. unfold Timeline.get_event_permutations. rewrite Hnone.
    cbn. by rewrite dict_groups_empty.
Qed.

(** X12. When [get_event_permutations] returns: every event of a group is
    an event at the timepoint, a group lists no event twice, and the
    events that are in some group are the events at the timepoint that
    affect a well of their plate. *)
Theorem get_event_permutations_cover (plates : gmap string plate_format)
    (tl : Timeline.t) (tp : Z) (G : gset (list Event.t)) :
  Timeline.get_event_permutations plates tl tp = Ok G →
  (∀ g, g ∈ G →
     NoDup g ∧ ∀ e, e ∈ g → e ∈ Timeline.get_event_list tl
                           ∧ Event.get_timepoint e = tp)
  ∧ (∀ e, (∃ g, g ∈ G ∧ e ∈ g) ↔
          e ∈ Timeline.get_events_at_timepoint tl tp
          ∧ ∃ w, w ∈ Event.get_well_ids e ∧ on_plate plates e w).
Proof.
  intros HG. split.
  - intros g (w & _ & ->)%(elem_of_get_event_permutations _ _ _ _ _ HG).
    split; [apply NoDup_tuple_of_set|].
    intros e (He & _)%elem_of_tuple_of_set%elem_of_placed_events.
    by apply elem_of_get_events_at_timepoint.
  - intros e. split.
    + intros (g & (w & _ & ->)%(elem_of_get_event_permutations _ _ _ _ _ HG) & He).
      apply elem_of_tuple_of_set, elem_of_placed_events in He as (? & ? & ?).
      split; [done|]. by exists w.
    + intros (He & w & Hw & Hon).
      assert (e ∈ placed_events plates tl w tp) as Hin
        by by apply elem_of_placed_events.
      exists (tuple_of_set (placed_events plates tl w tp)). split.
      * apply (elem_of_get_event_permutations _ _ _ _ _ HG). exists w.
        split; [|done]. intros Hnil. rewrite Hnil in Hin.
        by apply elem_of_nil in Hin.
      * by apply elem_of_tuple_of_set.
Qed.

Lemma get_event_permutations_cover_witness :
  ∃ G, Timeline.get_event_permutations fred_plates scenario 2 = Ok G
     ∧ ∀ e, (∃ g, g ∈ G ∧ e ∈ g) ↔
            e ∈ Timeline.get_events_at_timepoint scenario 2
            ∧ ∃ w, w ∈ Event.get_well_ids e ∧ on_plate fred_plates e w.
Proof.
  assert (Forall (λ e, is_Some (fred_plates !! Event.get_plate_id e))
                 (Timeline.get_events_at_timepoint scenario 2)) as Hreg
    by (apply (bool_decide_unpack _); vm_compute; exact I).
  destruct (event_dict_Ok fred_plates _ ∅ Hreg) as (d & Hd & _).
  assert (Timeline.get_event_permutations fred_plates scenario 2
          = Ok (dict_groups d)) as HG
    by (unfold Timeline.get_event_permutations; rewrite Hd; reflexivity).
  exists (dict_groups d). split; [exact HG|].
  exact (proj2 (get_event_permutations_cover fred_plates scenario 2 _ HG)).
Defined.

(** X13. When all events at the timepoint are on plates of one format and
    affect wells of that format only, the groups of events are the events
    of the wells of the plate, for the wells that have events: the groups
    of wells of [get_well_permutations], seen from the events. *)
Theorem get_event_permutations_signatures (plates : gmap string plate_format)
    (tl : Timeline.t) (tp : Z) (fmt : plate_format) :
  Forall (λ e, plates !! Event.get_plate_id e = Some fmt
               ∧ Forall (λ w, w ∈ PlateDesign.get_well_ids fmt)
                        (Event.get_well_ids e))
         (Timeline.get_events_at_timepoint tl tp) →
  ∃ G, Timeline.get_event_permutations plates tl tp = Ok G
    ∧ (∀ g, g ∈ G ↔
         ∃ wells w, wells ∈ Timeline.get_well_permutations tl tp fmt
           ∧ w ∈ wells
           ∧ Timeline.get_events_in_well tl w tp ≠ []
           ∧ g = tuple_of_set (Timeline.get_events_in_well tl w tp)).
Proof.
  intros Hall. rewrite Forall_forall in Hall.
  assert (Forall (λ e, is_Some (plates !! Event.get_plate_id e))
                 (Timeline.get_events_at_timepoint tl tp)) as Hreg.
  { apply Forall_forall. intros e [-> _]%Hall. done. }
  destruct (event_dict_Ok plates _ ∅ Hreg) as (d & Hd & _).
  assert (Timeline.get_event_permutations plates tl tp = Ok (dict_groups d))
    as HG by (unfold Timeline.get_event_permutations; by rewrite Hd).
  assert (∀ w, placed_events plates tl w tp
               = Timeline.get_events_in_well tl w tp) as Hplaced.
  { intros w. unfold placed_events. apply filter_Forall_id, Forall_forall.
    intros e He. unfold Timeline.get_events_in_well in He.
    apply list_elem_of_filter in He as [Hw [Hfmt Hwells]%Hall].
    unfold on_plate. rewrite Hfmt.
    by eapply (proj1 (Forall_forall _ _) Hwells). }
  exists (dict_groups d). split; [done|]. intros g.
  rewrite (elem_of_get_event_permutations _ _ _ _ _ HG). split.
  - intros (w & Hne & ->). rewrite Hplaced in Hne |- *.
    assert (w ∈ PlateDesign.get_well_ids fmt) as Hw.
    { destruct (Timeline.get_events_in_well tl w tp) as [|e l] eqn:Hl; [done|].
      assert (e ∈ Timeline.get_events_in_well tl w tp) as He
        by (rewrite Hl; left).
      unfold Timeline.get_events_in_well in He.
      apply list_elem_of_filter in He as [Hwe [_ Hwells]%Hall].
      by eapply (proj1 (Forall_forall _ _) Hwells). }
    destruct (well_group_of tl tp fmt w Hw) as (wells & Hwells & Hin).
    by exists wells, w.
  - intros (wells & w & _ & _ & Hne & ->). exists w. by rewrite Hplaced.
Qed.

Lemma get_event_permutations_signatures_witness :
  ∃ G, Timeline.get_event_permutations fred_plates scenario 2 = Ok G
    ∧ (∀ g, g ∈ G ↔
         ∃ wells w, wells ∈ Timeline.get_well_permutations scenario 2 P6
           ∧ w ∈ wells
           ∧ Timeline.get_events_in_well scenario w 2 ≠ []
           ∧ g = tuple_of_set (Timeline.get_events_in_well scenario w 2)).
Proof.
  apply (get_event_permutations_signatures fred_plates scenario 2 P6).
  apply (bool_decide_unpack _). vm_compute. exact I.
Defined.

(** ** The lineage tree: roots, levels and leaves *)

#[global] Instance str_le_total : Total str_le.
Proof. intros s1 s2. apply String.leb_total. Qed.

Lemma str_app_inj (s s1 s2 : string) : s +:+ s1 = s +:+ s2 → s1 = s2.
Proof. induction s as [|a s IH]; [done|]. intros [= Heq]. by apply IH. Qed.

Lemma str_of_nat_inj (n1 n2 : nat) : str_of_nat n1 = str_of_nat n2 → n1 = n2.
Proof.
  intros Heq. apply (f_equal nat_of_str) in Heq.
  rewrite !nat_of_str_of_nat in Heq. congruence.
Qed.

Lemma leaves_unfold (n : LineageNode) :
  leaves n = match Node.get_children n with
             | [] => [n]
             | _ :: _ => Node.get_children n ≫= leaves
             end.
Proof. destruct n as [p i ws tp [|c cs]]; reflexivity. Qed.

Section lineage_levels.
Variable tl : Timeline.t.

(** A property of all the nodes [build_tree] makes holds for all the nodes
    of a tree it makes. *)
Lemma build_tree_nodes_all (P : LineageNode → Prop) :
  (∀ later parent id ws tp, P (Timeline.build_tree tl later parent id ws tp)) →
  ∀ later parent id ws tp n,
    n ∈ Node.nodes (Timeline.build_tree tl later parent id ws tp) → P n.
Proof.
  intros HP later. induction later as [|tp' later IH];
    intros parent id ws tp n; rewrite Node_nodes_unfold, elem_of_cons.
  - intros [->|Hn]; [apply HP|]. by apply elem_of_nil in Hn.
  - intros [->|Hn]; [apply HP|].
    rewrite build_tree_children in Hn.
    apply list_elem_of_bind in Hn as (c & Hn & Hc).
    apply elem_of_lookup_imap in Hc as (i & wellset & -> & _).
    by eapply IH.
Qed.

Lemma subwells_nil (ws : list string) (tp : Z) :
  Timeline.subwells tl ws tp = [] ↔
  ∀ w, w ∈ ws → w ∉ PlateDesign.get_well_ids P6.
Proof.
  split.
  - intros Hnil w Hw Hp6.
    destruct (proj2 (subwells_union tl ws tp w)) as (sw & Hsw & _); [done|].
    rewrite Hnil in Hsw. by apply elem_of_nil in Hsw.
  - intros Hout. destruct (Timeline.subwells tl ws tp) as [|sw l] eqn:Hl; [done|].
    assert (sw ∈ Timeline.subwells tl ws tp) as Hsw by (rewrite Hl; left).
    pose proof Hsw as [Hne _]%elem_of_subwells.
    destruct sw as [|w sw]; [done|].
    destruct (proj1 (subwells_union tl ws tp w)) as [Hw Hdef].
    { eexists. split; [exact Hsw|left]. }
    by destruct (Hout w).
Qed.

(** The timepoint of a node and of its children, by position in a list of
    timepoints that the list [later] of the node ends. *)
Lemma build_tree_levels (tps pre later : list Z) parent id ws tp n :
  tps = pre ++ tp :: later →
  n ∈ Node.nodes (Timeline.build_tree tl later parent id ws tp) →
  ∃ i, tps !! i = Some (Node.timepoint n)
     ∧ (∀ c, c ∈ Node.get_children n → tps !! S i = Some (Node.timepoint c))
     ∧ (tps !! S i = None → Node.get_children n = []).
Proof.
  revert pre parent id ws tp. induction later as [|tp' later IH];
    intros pre parent id ws tp ->; rewrite Node_nodes_unfold, elem_of_cons.
  - intros [->|Hn]; [|by apply elem_of_nil in Hn].
    exists (length pre). split_and!; [by rewrite list_lookup_middle|..|done].
    by intros c ?%elem_of_nil.
  - intros [->|Hn].
    + exists (length pre). rewrite build_tree_timepoint, build_tree_children.
      assert ((pre ++ tp :: tp' :: later) !! S (length pre) = Some tp') as Hnext.
      { replace (pre ++ tp :: tp' :: later)
          with ((pre ++ [tp]) ++ tp' :: later) by (by rewrite <- app_assoc).
        apply list_lookup_middle. rewrite length_app. simpl. lia. }
      split_and!; [by rewrite list_lookup_middle| |by rewrite Hnext].
      intros c (i & wellset & -> & _)%elem_of_lookup_imap.
      by rewrite build_tree_timepoint.
    + rewrite build_tree_children in Hn.
      apply list_elem_of_bind in Hn as (c & Hn & Hc).
      apply elem_of_lookup_imap in Hc as (i & wellset & -> & _).
      eapply (IH (pre ++ [tp])); [|done]. by rewrite <- app_assoc.
Qed.

(** The children of a node [build_tree] makes. *)
Lemma build_tree_child later parent id ws tp i c :
  Node.get_children (Timeline.build_tree tl later parent id ws tp) !! i = Some c →
  Node.id c = id +:+ ":" +:+ str_of_nat i
  ∧ Node.get_well_ids c ≠ []
  ∧ NoDup (Node.get_well_ids c)
  ∧ Sorted str_le (Node.get_well_ids c)
  ∧ (∀ w, w ∈ Node.get_well_ids c → w ∈ PlateDesign.get_well_ids P6).
Proof.
  destruct later as [|tp' later]; [done|].
  rewrite build_tree_children, list_lookup_imap.
  destruct (Timeline.subwells tl ws tp' !! i) as [sw|] eqn:Hsw; [|done].
  intros [= <-]. rewrite build_tree_id, build_tree_well_ids.
  apply list_elem_of_lookup_2 in Hsw.
  pose proof Hsw as (Hne & g & Hg & Heq)%elem_of_subwells.
  split_and!; [done..| | |].
  - rewrite Heq. unfold sorted_str. rewrite merge_sort_Permutation.
    apply NoDup_elements.
  - rewrite Heq. apply (Sorted_merge_sort str_le).
  - intros w Hw. eapply (subwells_union tl ws tp' w). eauto.
Qed.

(** Two wells of the plate are in one leaf below a node exactly when they
    are wells of the node with the same events at each later timepoint. *)
Lemma build_tree_leaves later parent id ws tp (w1 w2 : string) :
  w1 ∈ PlateDesign.get_well_ids P6 →
  w2 ∈ PlateDesign.get_well_ids P6 →
  (∃ leaf, leaf ∈ leaves (Timeline.build_tree tl later parent id ws tp)
         ∧ w1 ∈ Node.get_well_ids leaf ∧ w2 ∈ Node.get_well_ids leaf)
  ↔ w1 ∈ ws ∧ w2 ∈ ws
    ∧ ∀ t, t ∈ later → Timeline.get_events_in_well tl w1 t
                       = Timeline.get_events_in_well tl w2 t.
Proof.
  intros Hp1 Hp2. revert parent id ws tp.
  induction later as [|tp' later IH]; intros parent id ws tp.
  { rewrite leaves_unfold. cbn [Timeline.build_tree Node.get_children].
    split.
    - intros (leaf & ->%list_elem_of_singleton & H1 & H2).
      split_and!; [done..|]. by intros t ?%elem_of_nil.
    - intros (H1 & H2 & _). eexists. split; [by apply list_elem_of_singleton|done]. }
  rewrite leaves_unfold, build_tree_children.
  set (F := λ i wellset, Timeline.build_tree tl later (Some id)
                           (id +:+ ":" +:+ str_of_nat i) wellset tp').
  split.
  - intros (leaf & Hleaf & H1 & H2).
    destruct (imap F (Timeline.subwells tl ws tp')) as [|c0 cs] eqn:Hcs.
    + apply list_elem_of_singleton in Hleaf as ->.
      rewrite build_tree_well_ids in H1.
      assert (Timeline.subwells tl ws tp' = []) as Hnil
        by by destruct (Timeline.subwells tl ws tp').
      by destruct (proj1 (subwells_nil ws tp') Hnil w1).
    + rewrite <- Hcs in Hleaf.
      apply list_elem_of_bind in Hleaf as (c & Hleaf & Hc).
      apply elem_of_lookup_imap in Hc as (i & sw & -> & Hsw).
      destruct (proj1 (IH (Some id) (id +:+ ":" +:+ str_of_nat i) sw tp'))
        as (Hs1 & Hs2 & Hlater); [by exists leaf|].
      apply list_elem_of_lookup_2 in Hsw.
      apply elem_of_subwells in Hsw as (_ & g & Hg & ->).
      apply elem_of_wellset in Hs1 as [Hw1 Hg1], Hs2 as [Hw2 Hg2].
      split_and!; [done..|]. intros t [->|Ht]%elem_of_cons; [|by apply Hlater].
      destruct (elem_of_well_group tl tp' P6 g w2 Hg Hg2) as [_ Heq].
      rewrite Heq in Hg1.
      by apply elem_of_tuple_of_set, list_elem_of_filter in Hg1 as [? _].
  - intros (Hw1 & Hw2 & Hsig).
    destruct (well_group_of tl tp' P6 w1 Hp1) as (g & Hg & Hg1).
    assert (w2 ∈ g) as Hg2.
    { destruct (elem_of_well_group tl tp' P6 g w1 Hg Hg1) as [_ ->].
      apply elem_of_tuple_of_set, list_elem_of_filter. split; [|done].
      symmetry. apply Hsig. left. }
    set (sw := sorted_str (elements ((list_to_set ws : gset string)
                                       ∩ list_to_set g))).
    assert (w1 ∈ sw ∧ w2 ∈ sw) as [Hs1 Hs2]
      by (split; by apply elem_of_wellset).
    assert (sw ∈ Timeline.subwells tl ws tp') as Hsw.
    { apply elem_of_subwells. split; [|by exists g].
      intros Hnil. rewrite Hnil in Hs1. by apply elem_of_nil in Hs1. }
    apply list_elem_of_lookup in Hsw as [i Hi].
    destruct (proj2 (IH (Some id) (id +:+ ":" +:+ str_of_nat i) sw tp'))
      as (leaf & Hleaf & H1 & H2).
    { split_and!; [done..|]. intros t Ht. apply Hsig. by right. }
    assert (F i sw ∈ imap F (Timeline.subwells tl ws tp')) as Hc
      by by apply elem_of_lookup_imap_2.
    exists leaf. split; [|done].
    destruct (imap F (Timeline.subwells tl ws tp')) as [|c0 cs] eqn:Hcs;
      [by apply elem_of_nil in Hc|].
    apply list_elem_of_bind. by exists (F i sw).
Qed.

End lineage_levels.

Lemma get_lineage_tree_Ok (tl : Timeline.t) :
  Timeline.events tl ≠ [] →
  ∃ tp0 later,
    Timeline.get_unique_timepoints tl = tp0 :: later
    ∧ Timeline.get_lineage_tree tl
      = Ok (Timeline.build_tree tl later None (Timeline.stock tl)
              (Timeline.get_well_ids tl None) tp0).
Proof.
  intros Hev. unfold Timeline.get_lineage_tree.
  destruct (Timeline.get_unique_timepoints tl) as [|tp0 later] eqn:Htps.
  { by apply get_unique_timepoints_nil in Htps. }
  by exists tp0, later.
Qed.

(** X14. The root of the lineage tree of a timeline with events has no
    parent, the stock as its id, the wells of all events as its wells, and
    the earliest timepoint of the events as its timepoint. *)
Theorem get_lineage_tree_root (tl : Timeline.t) :
  Timeline.events tl ≠ [] →
  ∃ tree, Timeline.get_lineage_tree tl = Ok tree
    ∧ Node.get_parent tree = None
    ∧ Node.id tree = Timeline.stock tl
    ∧ Node.get_well_ids tree = Timeline.get_well_ids tl None
    ∧ (∃ e, e ∈ Timeline.get_event_list tl
          ∧ Event.get_timepoint e = Node.timepoint tree)
    ∧ (∀ e, e ∈ Timeline.get_event_list tl →
          (Node.timepoint tree ≤ Event.get_timepoint e)%Z).
Proof.
  intros Hev. destruct (get_lineage_tree_Ok tl Hev) as (tp0 & later & Htps & ->).
  eexists. split; [done|].
  rewrite build_tree_parent, build_tree_id, build_tree_well_ids,
    build_tree_timepoint.
  split_and!; [done..| |].
  - apply elem_of_get_unique_timepoints. rewrite Htps. left.
  - intros e He. apply (get_unique_timepoints_first tl); [|done]. by rewrite Htps.
Qed.

Lemma get_lineage_tree_root_witness :
  Timeline.events scenario ≠ []
  ∧ ∃ tree, Timeline.get_lineage_tree scenario = Ok tree
      ∧ Node.get_well_ids tree = Timeline.get_well_ids scenario None
      ∧ (∀ e, e ∈ Timeline.get_event_list scenario →
            (Node.timepoint tree ≤ Event.get_timepoint e)%Z).
Proof.
  assert (Timeline.events scenario ≠ []) as Hev by (vm_compute; discriminate).
  split; [exact Hev|].
  destruct (get_lineage_tree_root scenario Hev)
    as (tree & Htree & _ & _ & Hwells & _ & Hmin).
  exists tree. split; [exact Htree|]. split; [exact Hwells | exact Hmin].
Defined.

(** X15. In the lineage tree each node is at one of the unique timepoints,
    and its children are all at the next one, which is later: the root at
    the first, its children at the second, and so on.  A node at the last
    unique timepoint has no children. *)
Theorem get_lineage_tree_levels (tl : Timeline.t) :
  Timeline.events tl ≠ [] →
  ∃ tree, Timeline.get_lineage_tree tl = Ok tree
    ∧ Timeline.get_unique_timepoints tl !! 0 = Some (Node.timepoint tree)
    ∧ ∀ n, n ∈ Node.nodes tree →
        ∃ i, Timeline.get_unique_timepoints tl !! i = Some (Node.timepoint n)
           ∧ (∀ c, c ∈ Node.get_children n →
                Timeline.get_unique_timepoints tl !! S i
                = Some (Node.timepoint c)
                ∧ (Node.timepoint n < Node.timepoint c)%Z)
           ∧ (Timeline.get_unique_timepoints tl !! S i = None →
              Node.get_children n = []).
Proof.
  intros Hev. destruct (get_lineage_tree_Ok tl Hev) as (tp0 & later & Htps & ->).
  eexists. split_and!; [done|by rewrite Htps, build_tree_timepoint|].
  intros n Hn.
  destruct (build_tree_levels tl (Timeline.get_unique_timepoints tl) []
              later None (Timeline.stock tl) (Timeline.get_well_ids tl None)
              tp0 n Htps Hn) as (i & Hi & Hchildren & Hlast).
  exists i. split_and!; [done| |done].
  intros c Hc. split; [by apply Hchildren|].
  apply (get_unique_timepoints_lt tl i (S i)); [lia|done|by apply Hchildren].
Qed.

Lemma get_lineage_tree_levels_witness :
  Timeline.events scenario ≠ []
  ∧ ∃ tree, Timeline.get_lineage_tree scenario = Ok tree
      ∧ Timeline.get_unique_timepoints scenario !! 0 = Some (Node.timepoint tree).
Proof.
  assert (Timeline.events scenario ≠ []) as Hev by (vm_compute; discriminate).
  split; [exact Hev|].
  destruct (get_lineage_tree_levels scenario Hev) as (tree & Htree & Hroot & _).
  exists tree. split; [exact Htree | exact Hroot].
Defined.

(** X16. In the lineage tree the child at position [i] of a node has the
    id of the node, a colon and [i] as its id, so that the children of a
    node have different ids; its wells are wells of the plate of 6 wells,
    at least one, in ascending order and each once. *)
Theorem get_lineage_tree_children (tl : Timeline.t) :
  Timeline.events tl ≠ [] →
  ∃ tree, Timeline.get_lineage_tree tl = Ok tree
    ∧ ∀ n, n ∈ Node.nodes tree →
        (∀ i c, Node.get_children n !! i = Some c →
           Node.id c = Node.id n +:+ ":" +:+ str_of_nat i
           ∧ Node.get_well_ids c ≠ []
           ∧ NoDup (Node.get_well_ids c)
           ∧ Sorted str_le (Node.get_well_ids c)
           ∧ (∀ w, w ∈ Node.get_well_ids c → w ∈ PlateDesign.get_well_ids P6))
        ∧ (∀ i j c1 c2, Node.get_children n !! i = Some c1 →
             Node.get_children n !! j = Some c2 →
             Node.id c1 = Node.id c2 → i = j).
Proof.
  intros Hev. destruct (get_lineage_tree_Ok tl Hev) as (tp0 & later & Htps & ->).
  eexists. split; [done|].
  apply (build_tree_nodes_all tl
           (λ n, (∀ i c, Node.get_children n !! i = Some c →
                    Node.id c = Node.id n +:+ ":" +:+ str_of_nat i
                    ∧ Node.get_well_ids c ≠ []
                    ∧ NoDup (Node.get_well_ids c)
                    ∧ Sorted str_le (Node.get_well_ids c)
                    ∧ (∀ w, w ∈ Node.get_well_ids c →
                            w ∈ PlateDesign.get_well_ids P6))
                 ∧ (∀ i j c1 c2, Node.get_children n !! i = Some c1 →
                      Node.get_children n !! j = Some c2 →
                      Node.id c1 = Node.id c2 → i = j))).
  intros later' parent id ws tp.
  assert (∀ i c, Node.get_children
                   (Timeline.build_tree tl later' parent id ws tp) !! i = Some c →
            Node.id c = Node.id (Timeline.build_tree tl later' parent id ws tp)
                        +:+ ":" +:+ str_of_nat i
            ∧ Node.get_well_ids c ≠ []
            ∧ NoDup (Node.get_well_ids c)
            ∧ Sorted str_le (Node.get_well_ids c)
            ∧ (∀ w, w ∈ Node.get_well_ids c → w ∈ PlateDesign.get_well_ids P6))
    as Hchild.
  { intros i c Hc. rewrite build_tree_id. by eapply build_tree_child. }
  split; [done|].
  intros i j c1 c2 [Hid1 _]%Hchild [Hid2 _]%Hchild Heq.
  rewrite Hid1, Hid2 in Heq.
  by apply str_app_inj, str_app_inj, str_of_nat_inj in Heq.
Qed.

Lemma get_lineage_tree_children_witness :
  Timeline.events scenario ≠ []
  ∧ ∃ tree, Timeline.get_lineage_tree scenario = Ok tree
      ∧ ∀ n, n ∈ Node.nodes tree →
          ∀ i j c1 c2, Node.get_children n !! i = Some c1 →
            Node.get_children n !! j = Some c2 →
            Node.id c1 = Node.id c2 → i = j.
Proof.
  assert (Timeline.events scenario ≠ []) as Hev by (vm_compute; discriminate).
  split; [exact Hev|].
  destruct (get_lineage_tree_children scenario Hev) as (tree & Htree & Hall).
  exists tree. split; [exact Htree|]. intros n Hn. exact (proj2 (Hall n Hn)).
Defined.

(** X17. The root of the lineage tree has no children exactly when the
    timeline has a single unique timepoint or none of its wells is a well
    of the plate of 6 wells (so also when the events have no wells). *)
Theorem get_lineage_tree_root_only (tl : Timeline.t) :
  Timeline.events tl ≠ [] →
  ∃ tree, Timeline.get_lineage_tree tl = Ok tree
    ∧ (Node.get_children tree = [] ↔
         length (Timeline.get_unique_timepoints tl) = 1
         ∨ ∀ w, w ∈ Timeline.get_well_ids tl None →
                w ∉ PlateDesign.get_well_ids P6).
Proof.
  intros Hev. destruct (get_lineage_tree_Ok tl Hev) as (tp0 & later & Htps & ->).
  eexists. split; [done|]. rewrite Htps.
  destruct later as [|tp1 later].
  { cbn. split; [by left|done]. }
  rewrite build_tree_children.
  rewrite <- (subwells_nil tl (Timeline.get_well_ids tl None) tp1).
  cbn [length]. split.
  - intros Hnil. right.
    by destruct (Timeline.subwells tl (Timeline.get_well_ids tl None) tp1).
  - intros [? | ->]; [lia|done].
Qed.

Lemma get_lineage_tree_root_only_witness :
  Timeline.events off_plate ≠ []
  ∧ ∃ tree, Timeline.get_lineage_tree off_plate = Ok tree
      ∧ Node.get_children tree = [].
Proof.
  assert (Timeline.events off_plate ≠ []) as Hev by (vm_compute; discriminate).
  split; [exact Hev|].
  destruct (get_lineage_tree_root_only off_plate Hev) as (tree & Htree & Hiff).
  exists tree. split; [exact Htree|].
  apply Hiff. left. vm_compute. reflexivity.
Defined.

(** X18. Two wells of the plate of 6 wells are in one leaf of the lineage
    tree exactly when both are wells of the timeline and
    [get_events_in_well] gives the same events for both at every unique
    timepoint after the first: the events at the first unique timepoint
    do not split the wells. *)
Theorem get_lineage_tree_leaves (tl : Timeline.t) :
  Timeline.events tl ≠ [] →
  ∃ tree, Timeline.get_lineage_tree tl = Ok tree
    ∧ ∀ w1 w2, w1 ∈ PlateDesign.get_well_ids P6 →
        w2 ∈ PlateDesign.get_well_ids P6 →
        (∃ leaf, leaf ∈ leaves tree
               ∧ w1 ∈ Node.get_well_ids leaf ∧ w2 ∈ Node.get_well_ids leaf)
        ↔ w1 ∈ Timeline.get_well_ids tl None
          ∧ w2 ∈ Timeline.get_well_ids tl None
          ∧ ∀ i t, 0 < i → Timeline.get_unique_timepoints tl !! i = Some t →
              Timeline.get_events_in_well tl w1 t
              = Timeline.get_events_in_well tl w2 t.
Proof.
  intros Hev. destruct (get_lineage_tree_Ok tl Hev) as (tp0 & later & Htps & ->).
  eexists. split; [done|]. intros w1 w2 Hp1 Hp2.
  rewrite build_tree_leaves by done. rewrite Htps.
  split; intros (H1 & H2 & Hsig); (split_and!; [done..|]).
  - intros i t Hi Ht. destruct i as [|i]; [lia|].
    apply Hsig. by eapply list_elem_of_lookup_2.
  - intros t [i Hi]%list_elem_of_lookup. apply (Hsig (S i)); [lia|done].
Qed.

Lemma get_lineage_tree_leaves_witness :
  Timeline.events scenario ≠ []
  ∧ ∃ tree, Timeline.get_lineage_tree scenario = Ok tree
      ∧ ∃ leaf, leaf ∈ leaves tree
          ∧ "A01" ∈ Node.get_well_ids leaf ∧ "A03" ∈ Node.get_well_ids leaf.
Proof.
  assert (Timeline.events scenario ≠ []) as Hev by (vm_compute; discriminate).
  split; [exact Hev|].
  destruct (get_lineage_tree_leaves scenario Hev) as (tree & Htree & Hiff).
  exists tree. split; [exact Htree|].
  apply Hiff; [apply (bool_decide_unpack _); vm_compute; exact I..|].
  split_and!; [apply (bool_decide_unpack _); vm_compute; exact I..|].
  intros i t Hi Ht.
  destruct i as [|[|[|i]]]; vm_compute in Ht; try discriminate Ht; [lia|].
  injection Ht as <-. vm_compute. reflexivity.
Defined.

(** ** The order of the event log *)

Lemma add_event_events_nonempty (tl : Timeline.t) (tp : Z)
    (action plate_id : string) (well_ids : list string) :
  Timeline.events tl ≠ [] →
  ∃ k, 1 ≤ k ≤ length (Timeline.events tl)
     ∧ Timeline.events (Timeline.add_event tl tp action plate_id well_ids).1
       = list_insert_at k (Timeline.add_event tl tp action plate_id well_ids).2
                        (Timeline.events tl).
Proof.
  intros Hne. unfold Timeline.add_event. cbn [fst snd Timeline.events].
  assert (0 < length (Timeline.events tl)) as Hlen
    by (destruct (Timeline.events tl); [done|simpl; lia]).
  rewrite bool_decide_eq_false_2 by lia.
  apply add_event_loop_insert. lia.
Qed.

(** X2. Adding an event to a timeline without events gives the list of
    that event.  Adding one to a chronological list of events keeps the
    list chronological exactly when the new timepoint is not below the
    timepoint of the first event of the list. *)
Theorem add_event_chronological_iff (tl : Timeline.t) (tp : Z)
    (action plate_id : string) (well_ids : list string) :
  chronological (Timeline.events tl) →
  let tl' := (Timeline.add_event tl tp action plate_id well_ids).1 in
  let evt := (Timeline.add_event tl tp action plate_id well_ids).2 in
  (Timeline.events tl = [] → Timeline.get_event_list tl' = [evt])
  ∧ (∀ e0, Timeline.events tl !! 0 = Some e0 →
       (chronological (Timeline.get_event_list tl')
        ↔ (Event.get_timepoint e0 ≤ tp)%Z)).
Proof.
  intros Hchron. cbn zeta. split.
  - intros Hnil. unfold Timeline.add_event, Timeline.get_event_list.
    cbn [fst snd Timeline.events]. by rewrite Hnil.
  - intros e0 He0. split.
    + intros Hchron'.
      destruct (decide (Event.get_timepoint e0 ≤ tp)%Z) as [|Hlt]; [done|].
      destruct (add_event_early tl tp action plate_id well_ids e0)
        as (_ & _ & Hbad); [done..|lia|]. by destruct Hbad.
    + intros Hle. apply add_event_chronological; [done|].
      intros e0' He0'. by simplify_eq.
Qed.

Lemma add_event_chronological_iff_witness :
  let tl := add 3 "b" [] (add 2 "a" [] (Timeline.new "U2OS")) in
  chronological (Timeline.events tl)
  ∧ ∀ e0, Timeline.events tl !! 0 = Some e0 →
      (chronological
         (Timeline.get_event_list (Timeline.add_event tl 5 "c" "fred" []).1)
       ↔ (Event.get_timepoint e0 ≤ 5)%Z).
Proof.
  cbn zeta.
  assert (chronological
            (Timeline.events (add 3 "b" [] (add 2 "a" [] (Timeline.new "U2OS")))))
    as Hchron.
  { vm_compute Timeline.events. apply chronological_cons. split.
    - apply Forall_cons. split; [cbn; lia|constructor].
    - apply chronological_cons. split; [constructor|apply chronological_nil]. }
  split; [exact Hchron|].
  exact (proj2 (add_event_chronological_iff _ 5 "c" "fred" [] Hchron)).
Defined.

Lemma add_event_before_equal_witness :
  let tl := add 2 "b" [] (add 1 "a" [] (Timeline.new "U2OS")) in
  Event.get_timepoint <$> Timeline.get_event_list
    (Timeline.add_event tl 2 "c" "fred" []).1 = [1; 2; 2]%Z
  ∧ ∃ k, Timeline.get_event_list (Timeline.add_event tl 2 "c" "fred" []).1
         = take k (Timeline.events tl)
           ++ (Timeline.add_event tl 2 "c" "fred" []).2
              :: drop k (Timeline.events tl)
       ∧ Forall (λ e, (Event.get_timepoint e < 2)%Z) (take k (Timeline.events tl))
       ∧ Forall (λ e, (2 ≤ Event.get_timepoint e)%Z) (drop k (Timeline.events tl)).
Proof.
  cbn zeta. split; [reflexivity|].
  eapply (add_event_before_equal _ 2 "c" "fred" []).
  - vm_compute Timeline.events. apply chronological_cons. split.
    + apply Forall_cons. split; [cbn; lia|constructor].
    + apply chronological_cons. split; [constructor|apply chronological_nil].
  - reflexivity.
  - vm_compute. reflexivity.
Defined.

Section add_events.

Lemma add_events_snoc (tl : Timeline.t) calls c :
  add_events tl (calls ++ [c])
  = (Timeline.add_event (add_events tl calls) c.1.1.1 c.1.1.2 c.1.2 c.2).1.
Proof. unfold add_events. by rewrite foldl_app. Qed.

Variables (stock : string) (c0 : Z * string * string * list string).

(** The first event added stays the first of the list. *)
Lemma add_events_head (rest : list (Z * string * string * list string)) :
  ∃ e0, Timeline.events (add_events (Timeline.new stock) (c0 :: rest)) !! 0
        = Some e0
      ∧ Event.get_timepoint e0 = c0.1.1.1.
Proof.
  induction rest as [|c rest IH] using rev_ind.
  - eexists. split; [reflexivity|done].
  - destruct IH as (e0 & He0 & Htp). exists e0. split; [|done].
    rewrite app_comm_cons, add_events_snoc.
    destruct (add_event_events_nonempty
                (add_events (Timeline.new stock) (c0 :: rest))
                c.1.1.1 c.1.1.2 c.1.2 c.2) as (k & Hk & ->).
    { intros Hnil. by rewrite Hnil in He0. }
    rewrite list_insert_at_lookup by lia. by rewrite decide_True by lia.
Qed.

(** Every call has its event in the list. *)
Lemma add_events_elem_of (tl : Timeline.t) calls c :
  c ∈ calls →
  ∃ e, e ∈ Timeline.events (add_events tl calls)
     ∧ Event.get_timepoint e = c.1.1.1.
Proof.
  induction calls as [|c' calls IH] using rev_ind; [by intros ?%elem_of_nil|].
  rewrite add_events_snoc.
  destruct (add_event_events (add_events tl calls) c'.1.1.1 c'.1.1.2 c'.1.2 c'.2)
    as (k & Hk & ->).
  unfold list_insert_at.
  intros [Hc | ->%list_elem_of_singleton]%elem_of_app.
  - destruct (IH Hc) as (e & He & Htp). exists e. split; [|done].
    rewrite <- (take_drop k (Timeline.events (add_events tl calls))) in He.
    apply elem_of_app in He as [?|?]; apply elem_of_app; [by left|].
    right. by right.
  - eexists. split; [apply elem_of_app; right; left|done].
Qed.

Lemma add_events_chronological (rest : list (Z * string * string * list string)) :
  Forall (λ c, (c0.1.1.1 ≤ c.1.1.1)%Z) rest →
  chronological (Timeline.events (add_events (Timeline.new stock) (c0 :: rest))).
Proof.
  induction rest as [|c rest IH] using rev_ind; intros Hall.
  - apply chronological_cons. split; [constructor|apply chronological_nil].
  - apply Forall_app in Hall as [Hrest [Hc _]%Forall_cons].
    rewrite app_comm_cons, add_events_snoc.
    apply add_event_chronological; [by apply IH|].
    intros e0 He0. destruct (add_events_head rest) as (e0' & He0' & Htp).
    simplify_eq. by rewrite Htp.
Qed.

End add_events.

(** X3. After a sequence of [add_event] calls on a new timeline, the list
    of events is chronological exactly when no call has a timepoint below
    the timepoint of the first call; the order of the other calls does not
    matter. *)
Theorem add_events_chronological_iff (stock : string)
    (c0 : Z * string * string * list string)
    (rest : list (Z * string * string * list string)) :
  chronological
    (Timeline.get_event_list (add_events (Timeline.new stock) (c0 :: rest)))
  ↔ Forall (λ c, (c0.1.1.1 ≤ c.1.1.1)%Z) rest.
Proof.
  split; [|apply add_events_chronological].
  intros Hchron. apply Forall_forall. intros c Hc.
  destruct (add_events_head stock c0 rest) as (e0 & He0 & <-).
  destruct (add_events_elem_of (Timeline.new stock) (c0 :: rest) c)
    as (e & He & <-); [by right|].
  apply list_elem_of_lookup in He as [j Hj].
  destruct j as [|j]; [unfold Timeline.get_event_list in *; by simplify_eq|].
  by apply (Hchron 0 (S j)); [lia|..].
Qed.

(** ** Plate addressing: positions and well ids *)

Section positions.
Variables (rowCount colCount : nat).

(** What [get_well_id_from_row_col] has done when it returns. *)
Lemma get_well_id_from_row_col_Ok (row col : Z) (w : string) :
  PlateDesign.get_well_id_from_row_col (rowCount, colCount) (row, col) = Ok w →
  (0 ≤ row < Z.of_nat rowCount)%Z ∧ (0 ≤ col < Z.of_nat colCount)%Z
  ∧ length (PlateDesign.get_well_ids (rowCount, colCount)) = rowCount * colCount
  ∧ PlateDesign.get_well_ids (rowCount, colCount)
      !! (Z.to_nat row * colCount + Z.to_nat col) = Some w.
Proof.
  unfold PlateDesign.get_well_id_from_row_col. cbn [fst snd].
  destruct (decide (0 ≤ row < Z.of_nat rowCount)%Z) as [Hr|Hr];
    [rewrite (bool_decide_eq_true_2 _ Hr)
    |by rewrite (bool_decide_eq_false_2 _ Hr)].
  destruct (decide (0 ≤ col < Z.of_nat colCount)%Z) as [Hc|Hc];
    [rewrite (bool_decide_eq_true_2 _ Hc)
    |by rewrite (bool_decide_eq_false_2 _ Hc)].
  cbn [assert mbind result_bind]. unfold reshape. cbn [fst snd].
  case_decide as Hlen; [|by cbn]. cbn [mbind result_bind].
  unfold getitem2. case_decide; [|done].
  rewrite rows_of_lookup2 by lia.
  destruct (_ !! _) as [w'|] eqn:Hw; [|done]. by intros [= ->].
Qed.

Lemma get_well_id_from_row_col_nat (row col : nat) (w : string) :
  rowCount ≤ 52 → row < rowCount → col < colCount →
  PlateDesign.get_well_ids (rowCount, colCount) !! (row * colCount + col) = Some w →
  PlateDesign.get_well_id_from_row_col (rowCount, colCount)
    (Z.of_nat row, Z.of_nat col) = Ok w.
Proof.
  intros Hrows Hr Hc Hw.
  unfold PlateDesign.get_well_id_from_row_col. cbn [fst snd].
  rewrite !bool_decide_eq_true_2 by lia.
  cbn [assert mbind result_bind]. unfold reshape. cbn [fst snd].
  pose proof (get_well_ids_length (rowCount, colCount)) as Hlen.
  cbn [fst snd] in Hlen. replace (rowCount `min` 52) with rowCount in Hlen by lia.
  case_decide; [|done]. cbn [mbind result_bind].
  unfold getitem2. case_decide; [|lia].
  rewrite rows_of_lookup2 by lia. by rewrite !Nat2Z.id, Hw.
Qed.

End positions.

(** X19. A plate format of more than 52 rows has the well ids of the
    format of 52 rows: there is no letter for the other rows.  For such a
    format with columns, [get_well_id_from_row_col] fails at every
    position inside the plate: the well ids do not fill the plate. *)
Theorem get_well_ids_over_52 (rowCount colCount : nat) :
  52 < rowCount →
  PlateDesign.get_well_ids (rowCount, colCount)
  = PlateDesign.get_well_ids (52, colCount)
  ∧ (∀ row col, (0 ≤ row < Z.of_nat rowCount)%Z →
       (0 ≤ col < Z.of_nat colCount)%Z →
       PlateDesign.get_well_id_from_row_col (rowCount, colCount) (row, col)
       = Raise ValueError).
Proof.
  intros Hrows. split.
  - unfold PlateDesign.get_well_ids. cbn [fst snd].
    by rewrite !take_ge by (rewrite alphabet_length; lia).
  - intros row col Hr Hc.
    unfold PlateDesign.get_well_id_from_row_col. cbn [fst snd].
    rewrite !bool_decide_eq_true_2 by done.
    cbn [assert mbind result_bind]. unfold reshape.
    rewrite get_well_ids_length. cbn [fst snd].
    case_decide; [nia|done].
Qed.

Lemma get_well_ids_over_52_witness :
  52 < 53
  ∧ PlateDesign.get_well_ids (53, 1) = PlateDesign.get_well_ids (52, 1)
  ∧ PlateDesign.get_well_id_from_row_col (53, 1) (0, 0)%Z = Raise ValueError.
Proof.
  split; [lia|].
  destruct (get_well_ids_over_52 53 1) as [Hids Hfail]; [lia|].
  split; [exact Hids|]. apply Hfail; lia.
Defined.

(** X20. On a plate of at most 52 rows [get_well_id_from_row_col] pairs
    the positions inside the plate with the well ids of [get_well_ids]:
    what it returns is one of the well ids, two positions with the same
    well id are the same position, and each well id is the well id of a
    position. *)
Theorem get_well_id_from_row_col_bijective (rowCount colCount : nat) :
  rowCount ≤ 52 →
  (∀ pos w, PlateDesign.get_well_id_from_row_col (rowCount, colCount) pos = Ok w →
     w ∈ PlateDesign.get_well_ids (rowCount, colCount))
  ∧ (∀ pos1 pos2 w,
       PlateDesign.get_well_id_from_row_col (rowCount, colCount) pos1 = Ok w →
       PlateDesign.get_well_id_from_row_col (rowCount, colCount) pos2 = Ok w →
       pos1 = pos2)
  ∧ (∀ w, w ∈ PlateDesign.get_well_ids (rowCount, colCount) →
       ∃ pos, PlateDesign.get_well_id_from_row_col (rowCount, colCount) pos
              = Ok w).
Proof.
  intros Hrows. split_and!.
  - intros [row col] w (_ & _ & _ & Hw)%get_well_id_from_row_col_Ok.
    by eapply list_elem_of_lookup_2.
  - intros [r1 c1] [r2 c2] w (Hr1 & Hc1 & _ & H1)%get_well_id_from_row_col_Ok
                             (Hr2 & Hc2 & _ & H2)%get_well_id_from_row_col_Ok.
    pose proof (NoDup_lookup _ _ _ _ (get_well_ids_NoDup (rowCount, colCount))
                  H1 H2) as Heq.
    assert (Z.to_nat c1 < colCount ∧ Z.to_nat c2 < colCount) as [Hlt1 Hlt2]
      by lia.
    assert (Z.to_nat r1 = Z.to_nat r2) as Hrow.
    { revert Heq Hlt1 Hlt2.
      generalize (Z.to_nat r1) (Z.to_nat r2) (Z.to_nat c1) (Z.to_nat c2).
      intros a1 a2 b1 b2 Heq Hlt1 Hlt2.
      destruct (decide (a1 < a2)); [nia|]. destruct (decide (a2 < a1)); [nia|lia]. }
    rewrite Hrow in Heq. f_equal; lia.
  - intros w [i Hi]%list_elem_of_lookup.
    pose proof (lookup_lt_Some _ _ _ Hi) as Hlt.
    rewrite get_well_ids_length in Hlt. cbn [fst snd] in Hlt.
    replace (rowCount `min` 52) with rowCount in Hlt by lia.
    assert (0 < colCount) as Hcols by nia.
    exists (Z.of_nat (i / colCount), Z.of_nat (i mod colCount)).
    apply get_well_id_from_row_col_nat; [done|..].
    + apply Nat.Div0.div_lt_upper_bound. lia.
    + apply Nat.mod_upper_bound. lia.
    + rewrite <- Hi. f_equal.
      rewrite (Nat.div_mod_eq i colCount) at 3. lia.
Qed.

Lemma get_well_id_from_row_col_bijective_witness :
  2 ≤ 52
  ∧ ∃ pos, PlateDesign.get_well_id_from_row_col (2, 3) pos = Ok "B02".
Proof.
  split; [lia|].
  apply (get_well_id_from_row_col_bijective 2 3); [lia|].
  apply (bool_decide_unpack _). vm_compute. exact I.
Defined.
